(** * Wallet service: idempotent credit/debit transactions over two DynamoDB tables

    Shallow embedding of [src/services/wallet.service.ts] (functions
    [getCurrentBalance], [transact], [createUser], [clearTransactionsTable])
    and of the handlers of [src/controllers/wallet.controller.ts], together
    with the part of the DynamoDB document client those functions rely on.

    Conventions of the model.
    - A JavaScript string is the [string] of the bytes of its UTF-8
      encoding.
    - A JavaScript [number] is [NaN], an infinity or a finite double. A
      finite double is written [Num q], where the rational [q] is the
      decimal that [Number.prototype.toString] prints for it; this is also
      the decimal the document client sends to DynamoDB. [parseFloat]
      rounds to the nearest double, overflows to [Infinity] and underflows
      to [0] ([js_read]).
    - A DynamoDB number is a decimal, an exact rational, and [ADD] adds
      decimals exactly.
    - Three steps are idealised. JavaScript's [+] is the exact sum
      ([num_add]) where JavaScript rounds the sum of two doubles to a double
      ([js_plus]); a stored decimal is read back as itself ([Item_balance])
      where the client turns it into a double; and [marshal] refuses only
      [NaN] and the infinities where the client and DynamoDB also refuse
      what is outside [storable]. The three agree with the code whenever the
      stored balance and the sum are decimals JavaScript prints and the
      values sent are storable, in particular on the integers up to
      [2^53 - 1] ([safe_integer]). A theorem whose content depends on such
      a step carries these conditions as hypotheses, and the first claim
      is settled on a case where JavaScript's sum and DynamoDB's part.
    - A table is a finite map from its partition key to the stored item.
    - Every [await docClient.send(...)] is one atomic storage step. Between
      two such steps other requests may change the tables: the [others]
      component of a [world] gives those changes, one per storage step, and
      the identity gives a sequential run.
    - The storage is assumed reachable and free of contention: a [send]
      fails only when a condition of the command fails, a number cannot be
      marshalled or a key is empty. A read that the storage fails to answer
      and the cancellation of a transactional write for a reason other than
      its conditions are not modelled; on the code such a failure surfaces
      as an error of the storage, thrown again unchanged by [transact].
    - [console.error] is not modelled, so the outer [try]/[catch] of each
      function, which logs and throws again, is the identity. *)

From Stdlib Require Import QArith Qabs Qround Qcanon ZArith String Ascii List DecimalString.
From stdpp Require Import gmap strings list fin_maps numbers.

Local Open Scope string_scope.
Local Open Scope list_scope.
Local Open Scope Z_scope.

(** ** JavaScript numbers *)

Inductive number :=
| NaN
| PosInf
| NegInf
| Num (q : Qc).

#[global] Instance number_eq_dec : EqDecision number.
Proof. solve_decision. Defined.

Definition zero : number := Num (Q2Qc 0).

Definition isNaN (x : number) : bool :=
  match x with NaN => true | _ => false end.

Definition isFinite (x : number) : bool :=
  match x with Num _ => true | _ => false end.

(** Unary minus. *)
Definition num_neg (x : number) : number :=
  match x with
  | NaN => NaN
  | PosInf => NegInf
  | NegInf => PosInf
  | Num q => Num (- q)%Qc
  end.

(** [x + y]. *)
Definition num_add (x y : number) : number :=
  match x, y with
  | NaN, _ | _, NaN => NaN
  | PosInf, NegInf | NegInf, PosInf => NaN
  | PosInf, _ | _, PosInf => PosInf
  | NegInf, _ | _, NegInf => NegInf
  | Num a, Num b => Num (a + b)%Qc
  end.

(** [x < y]; every comparison with [NaN] is false. *)
Definition num_ltb (x y : number) : bool :=
  match x, y with
  | NaN, _ | _, NaN => false
  | _, NegInf => false
  | NegInf, _ => true
  | PosInf, _ => false
  | Num _, PosInf => true
  | Num a, Num b => bool_decide (a < b)%Qc
  end.

(** [x <= y]. *)
Definition num_leb (x y : number) : bool :=
  match x, y with
  | NaN, _ | _, NaN => false
  | NegInf, _ => true
  | _, PosInf => true
  | PosInf, _ => false
  | Num _, NegInf => false
  | Num a, Num b => bool_decide (a <= b)%Qc
  end.

(** Truthiness of a number: [0] and [NaN] are falsy. *)
Definition truthy (x : number) : bool :=
  match x with
  | NaN => false
  | Num q => negb (bool_decide (q = Q2Qc 0))
  | _ => true
  end.

(** [v || d] where [v] is an attribute that may be [undefined]. *)
Definition js_or (v : option number) (d : number) : number :=
  match v with
  | Some x => if truthy x then x else d
  | None => d
  end.

(** ** Doubles *)

(** [floor (log2 (n / d))] for positive [n] and [d]. *)
Definition floor_log2 (n d : Z) : Z :=
  let e := Z.log2 n - Z.log2 d in
  if (if 0 <=? e then d * 2 ^ e <=? n else d <=? n * 2 ^ (- e)) then e else e - 1.

(** [n / d] rounded to the nearest integer, a tie to the even one. *)
Definition round_half_even (n d : Z) : Z :=
  let q := n / d in
  match 2 * (n mod d) ?= d with
  | Lt => q
  | Gt => q + 1
  | Eq => if Z.even q then q else q + 1
  end.

(** The double nearest to the positive rational [n / d], as the pair
    [(m, t)] of value [m * 2^t]: 53 significant bits, none below [2^-1074],
    ties to even. *)
Definition binary64 (n d : Z) : Z * Z :=
  let t := Z.max (floor_log2 n d - 52) (-1074) in
  (if 0 <=? t then round_half_even n (d * 2 ^ t) else round_half_even (n * 2 ^ (- t)) d, t).

Definition binary64_of (q : Q) : Z * Z := binary64 (Qnum q) (Zpos (Qden q)).

(** What is rounded to [2^1024] or more is an infinity. *)
Definition overflows (x : Z * Z) : bool := 2 ^ 1024 <=? fst x * 2 ^ snd x.

Definition binary64_value (x : Z * Z) : Q :=
  if 0 <=? snd x then inject_Z (fst x * 2 ^ snd x) else fst x # Z.to_pos (2 ^ (- snd x)).

(** [10^p] as a rational. *)
Definition pow10 (p : Z) : Q :=
  if 0 <=? p then inject_Z (10 ^ p) else 1 # Z.to_pos (10 ^ (- p)).

(** [floor (log10 q)] for a positive rational [q]. *)
Definition floor_log10 (q : Q) : Z :=
  let e := (Z.log2 (Qnum q) - Z.log2 (Zpos (Qden q))) * 30103 / 100000 in
  let reaches k := Qle_bool (pow10 k) q in
  if reaches (e + 2) then e + 2
  else if reaches (e + 1) then e + 1
  else if reaches e then e
  else if reaches (e - 1) then e - 1
  else e - 2.

(** The two decimals of [j] significant digits around the positive
    rational [v], the one nearer to [v] first (of two equally near, the one
    whose last digit is even). *)
Definition decimals_around (v : Q) (j : Z) : list Q :=
  let p := floor_log10 v + 1 - j in
  let lo := Qfloor (v / pow10 p) in
  let below := (inject_Z lo * pow10 p)%Q in
  let above := (inject_Z (lo + 1) * pow10 p)%Q in
  match (v - below ?= above - v)%Q with
  | Lt => [below; above]
  | Gt => [above; below]
  | Eq => if Z.even lo then [below; above] else [above; below]
  end.

(** The positive decimal [c] is read as the double [x]. *)
Definition reads_as (x : Z * Z) (c : Q) : bool :=
  (0 <? Qnum c) && Qeq_bool (binary64_value (binary64_of c)) (binary64_value x).

(** The decimal [Number.prototype.toString] prints for the double [x]: of
    the decimals that are read as [x], one of fewest digits, and among
    those the nearest to [x]. Seventeen digits always suffice. *)
Fixpoint shortest_decimal (x : Z * Z) (j : Z) (fuel : nat) : Q :=
  match fuel with
  | O => binary64_value x
  | S fuel' =>
      match List.filter (reads_as x) (decimals_around (binary64_value x) j) with
      | c :: _ => c
      | [] => shortest_decimal x (j + 1) fuel'
      end
  end.

(** The JavaScript number nearest to a positive rational. *)
Definition number_of_positive (q : Q) : number :=
  let x := binary64_of q in
  if fst x =? 0 then zero
  else if overflows x then PosInf
  else Num (Q2Qc (shortest_decimal x 1 17)).

(** The JavaScript number nearest to a rational: what a decimal literal
    denotes, and [Number(s)] for the decimal string [s] of a stored
    number. *)
Definition js_read (q : Qc) : number :=
  match Qnum q with
  | Z0 => zero
  | Zpos _ => number_of_positive q
  | Zneg _ => num_neg (number_of_positive (- q)%Q)
  end.

(** The exact value of the double nearest to a rational (of a rational
    that does not overflow). *)
Definition double_value (q : Qc) : Q :=
  match Qnum q with
  | Z0 => 0%Q
  | Zpos _ => binary64_value (binary64_of q)
  | Zneg _ => (- binary64_value (binary64_of (- q)%Q))%Q
  end.

(** [x + y] as JavaScript computes it: the double nearest to the sum of the
    two doubles. *)
Definition js_plus (x y : number) : number :=
  match x, y with
  | Num a, Num b => js_read (Q2Qc (double_value a + double_value b)%Q)
  | _, _ => num_add x y
  end.

(** An integer of magnitude at most [Number.MAX_SAFE_INTEGER]. On such
    numbers, when the result is one of them too, JavaScript's arithmetic is
    exact, and each is its own decimal. *)
Definition MAX_SAFE_INTEGER : Z := 2 ^ 53 - 1.

Definition safe_integer (q : Qc) : bool :=
  (Zpos (Qden q) =? 1) && (Z.abs (Qnum q) <=? MAX_SAFE_INTEGER).

(** The numbers that can be stored: the document client refuses [NaN], the
    infinities and what is above [Number.MAX_SAFE_INTEGER] or below
    [Number.MIN_SAFE_INTEGER]; DynamoDB refuses a number other than [0] of
    magnitude below [1E-130]. *)
Definition storable (x : number) : bool :=
  match x with
  | Num q =>
      Qle_bool (Qabs q) (inject_Z MAX_SAFE_INTEGER)
      && ((Qnum q =? 0) || Qle_bool (pow10 (-130)) (Qabs q))
  | _ => false
  end.

(** ** [parseFloat]

    ECMAScript: skip leading white space, then take the longest prefix that
    is a StrDecimalLiteral (sign, then [Infinity] or digits with an optional
    fraction and an optional exponent); no such prefix gives [NaN]. What
    follows the prefix is ignored. The value is the double nearest to the
    literal. *)

(** StrWhiteSpaceChar of one byte: space, TAB, LF, VT, FF, CR. A byte 160
    on its own, which begins no character of UTF-8, is taken for U+00A0 as
    well, as in Latin-1. *)
Definition is_white_space (c : ascii) : bool :=
  let n := nat_of_ascii c in
  (n =? 32)%nat || ((9 <=? n)%nat && (n <=? 13)%nat) || (n =? 160)%nat.

(** StrWhiteSpaceChar of two bytes: U+00A0. *)
Definition is_white_space2 (c1 c2 : ascii) : bool :=
  (nat_of_ascii c1 =? 194)%nat && (nat_of_ascii c2 =? 160)%nat.

(** StrWhiteSpaceChar of three bytes: U+1680, U+2000 to U+200A, U+2028,
    U+2029, U+202F, U+205F, U+3000 and U+FEFF. *)
Definition is_white_space3 (c1 c2 c3 : ascii) : bool :=
  let n1 := nat_of_ascii c1 in
  let n2 := nat_of_ascii c2 in
  let n3 := nat_of_ascii c3 in
  ((n1 =? 225)%nat && (n2 =? 154)%nat && (n3 =? 128)%nat)
  || ((n1 =? 226)%nat && (n2 =? 128)%nat
      && (((128 <=? n3)%nat && (n3 <=? 138)%nat)
          || (n3 =? 168)%nat || (n3 =? 169)%nat || (n3 =? 175)%nat))
  || ((n1 =? 226)%nat && (n2 =? 129)%nat && (n3 =? 159)%nat)
  || ((n1 =? 227)%nat && (n2 =? 128)%nat && (n3 =? 128)%nat)
  || ((n1 =? 239)%nat && (n2 =? 187)%nat && (n3 =? 191)%nat).

Fixpoint trim_start (s : string) : string :=
  match s with
  | String c1 r1 =>
      if is_white_space c1 then trim_start r1
      else
        match r1 with
        | String c2 r2 =>
            if is_white_space2 c1 c2 then trim_start r2
            else
              match r2 with
              | String c3 r3 => if is_white_space3 c1 c2 c3 then trim_start r3 else s
              | EmptyString => s
              end
        | EmptyString => s
        end
  | EmptyString => s
  end.

Definition digit_of (c : ascii) : option Z :=
  let n := nat_of_ascii c in
  if ((48 <=? n)%nat && (n <=? 57)%nat)%bool then Some (Z.of_nat n - 48) else None.

(** Reads a run of decimal digits: the value accumulated on [acc], the
    number of digits read, and the rest of the string. *)
Fixpoint read_digits (s : string) (acc : Z) (count : nat) : Z * nat * string :=
  match s with
  | String c r =>
      match digit_of c with
      | Some d => read_digits r (10 * acc + d) (S count)
      | None => (acc, count, s)
      end
  | EmptyString => (acc, count, s)
  end.

(** The value of an ExponentPart at the head of [s], [0] when there is none
    (an [e] that no digit follows is not part of the literal). *)
Definition read_exponent (s : string) : Z :=
  match s with
  | String c r =>
      if (Ascii.eqb c "e" || Ascii.eqb c "E")%bool then
        let '(sign, r') :=
          match r with
          | String "+" r2 => (1, r2)
          | String "-" r2 => (-1, r2)
          | _ => (1, r)
          end in
        let '(v, n, _) := read_digits r' 0 0 in
        if (n =? 0)%nat then 0 else sign * v
      else 0
  | EmptyString => 0
  end.

(** [m * 10^e] as an exact rational. *)
Definition scale10 (m e : Z) : Qc :=
  if 0 <=? e then Q2Qc (inject_Z (m * 10 ^ e))
  else Q2Qc (m # Z.to_pos (10 ^ (- e))).

(** The double nearest to [m * 10^e], where [0 <= m < 10^digits]. Above
    [10^400] it is [Infinity] and below [10^-400] it is [0], whatever the
    digits. *)
Definition round10 (m : Z) (digits : nat) (e : Z) : number :=
  if m =? 0 then zero
  else if 400 <? e then PosInf
  else if e + Z.of_nat digits <? -400 then zero
  else js_read (scale10 m e).

Definition read_unsigned (s : string) : number :=
  if String.prefix "Infinity" s then PosInf
  else
    let '(i, ni, r1) := read_digits s 0 0 in
    match r1 with
    | String "." r2 =>
        let '(f, nf, r3) := read_digits r2 i 0 in
        if ((ni =? 0)%nat && (nf =? 0)%nat)%bool then NaN
        else round10 f (ni + nf)%nat (read_exponent r3 - Z.of_nat nf)
    | _ =>
        if (ni =? 0)%nat then NaN else round10 i ni (read_exponent r1)
    end.

Definition parseFloat (s : string) : number :=
  match trim_start s with
  | String "-" r => num_neg (read_unsigned r)
  | String "+" r => read_unsigned r
  | r => read_unsigned r
  end.

Definition of_Z (z : Z) : number := Num (Q2Qc (inject_Z z)).


(** ** Strings *)

(** [s.includes(sub)]. *)
Fixpoint includes (sub s : string) : bool :=
  String.prefix sub s ||
  match s with
  | String _ r => includes sub r
  | EmptyString => false
  end.

(** A string is falsy exactly when it is empty. *)
Definition falsy (s : string) : bool := bool_decide (s = "").

(** ** Values thrown *)

Module Error.
Record t := make { name : string; message : string }.
End Error.

#[global] Instance Error_eq_dec : EqDecision Error.t.
Proof. solve_decision. Defined.

(** [new Error(msg)]. *)
Definition new_Error (msg : string) : Error.t := Error.make "Error" msg.

Definition msg_fields_required : string :=
  "All fields are required: idempotentKey, userId, amount, type".
Definition msg_amount_positive : string := "Amount must be a positive number".
Definition msg_type_invalid : string := "Type must be either 'credit' or 'debit'".
Definition msg_userId_required : string := "userId is required".
Definition msg_user_not_found (userId : string) : string :=
  "User " +:+ userId +:+ " not found".
Definition msg_insufficient : string :=
  "Insufficient balance: transaction would result in negative balance".
Definition msg_concurrent : string :=
  "Transaction failed due to concurrent modification. Please retry.".
Definition msg_replayed : string := "Transaction already processed (idempotent)".
Definition msg_replayed_concurrent : string :=
  "Transaction already processed (idempotent - concurrent request)".

(** The status code [transactHandler] derives from a thrown message. *)
Definition statusCode (e : Error.t) : nat :=
  let m := Error.message e in
  if includes "Insufficient balance" m || includes "concurrent" m || includes "retry" m
  then 409%nat
  else if includes "not found" m then 404%nat
  else if includes "must be" m || includes "required" m then 400%nat
  else 500%nat.

(** The error kinds of the specification, told apart the way
    [transactHandler] tells the status codes apart. *)
Inductive kind :=
| InvalidInput
| AccountNotFound
| InsufficientBalance
| ConcurrencyConflict
| Unclassified.

#[global] Instance kind_eq_dec : EqDecision kind.
Proof. solve_decision. Defined.

Definition kind_of (e : Error.t) : kind :=
  let m := Error.message e in
  if includes "Insufficient balance" m then InsufficientBalance
  else if includes "concurrent" m || includes "retry" m then ConcurrencyConflict
  else if includes "not found" m then AccountNotFound
  else if includes "must be" m || includes "required" m then InvalidInput
  else Unclassified.

(** ** Interface types ([src/types/wallet.types.ts]) *)

Module GetBalanceInput.
Record t := make { userId : string }.
End GetBalanceInput.

Module GetBalanceOutput.
Record t := make { userId : string; balance : number }.
End GetBalanceOutput.

Module TransactInput.
Record t := make {
  idempotentKey : string;
  userId : string;
  amount : string;
  type : string
}.
End TransactInput.

Module TransactOutput.
Record t := make {
  success : bool;
  transactionId : string;
  newBalance : number;
  message : option string
}.
End TransactOutput.

#[global] Instance GetBalanceOutput_eq_dec : EqDecision GetBalanceOutput.t.
Proof. solve_decision. Defined.

#[global] Instance TransactOutput_eq_dec : EqDecision TransactOutput.t.
Proof. solve_decision. Defined.

(** The specification's [replayed] flag: the code marks a replay by the
    optional [message] of the output, absent on a fresh commit. *)
Definition replayed (o : TransactOutput.t) : bool :=
  bool_decide (is_Some (TransactOutput.message o)).

(** ** The two tables *)

Definition USERS_TABLE : string := "Users".
Definition TRANSACTIONS_TABLE : string := "Transactions".

(** An item of [Users], keyed by [userId]. DynamoDB stores finite numbers
    only; an attribute may be absent. *)
Module UserItem.
Record t := make {
  balance : option Qc;
  createdAt : option string;
  updatedAt : option string
}.
End UserItem.

(** An item of [Transactions], keyed by [idempotentKey]. *)
Module TransactionItem.
Record t := make {
  transactionId : string;
  userId : string;
  amount : Qc;
  type : string;
  newBalance : Qc;
  timestamp : string
}.
End TransactionItem.

#[global] Instance UserItem_eq_dec : EqDecision UserItem.t.
Proof. solve_decision. Defined.

#[global] Instance TransactionItem_eq_dec : EqDecision TransactionItem.t.
Proof. solve_decision. Defined.

Record db := mkdb {
  Users : gmap string UserItem.t;
  Transactions : gmap string TransactionItem.t
}.

#[global] Instance db_eq_dec : EqDecision db.
Proof. solve_decision. Defined.

Definition empty_db : db := mkdb ∅ ∅.

(** [Item.balance] as JavaScript reads it: [undefined] when the item or the
    attribute is absent. *)
Definition Item_balance (item : option UserItem.t) : option number :=
  Num <$> (item ≫= UserItem.balance).

(** ** The document client *)

(** One entry per [docClient.send]. *)
Inductive call :=
| Get (table key : string)
| Put (table key : string)
| TransactWrite (idempotentKey userId : string).

#[global] Instance call_eq_dec : EqDecision call.
Proof. solve_decision. Defined.

Definition is_TransactWrite (c : call) : bool :=
  match c with TransactWrite _ _ => true | _ => false end.

Record world := mkworld {
  store : db;
  others : nat -> db -> db;
  clock : nat;
  log : list call
}.

(** A sequential run from [s]: nobody else touches the tables. *)
Definition alone (s : db) : world := mkworld s (fun _ s => s) 0 [].

(** A run from [s] in which [f n] is what the other requests do to the
    tables just before this request's storage step number [n] (from 0). *)
Definition among (f : nat -> db -> db) (s : db) : world := mkworld s f 0 [].

Inductive outcome (A : Type) :=
| Return (a : A)
| Throw (e : Error.t).
Arguments Return {A} a.
Arguments Throw {A} e.

#[global] Instance outcome_eq_dec {A} `{EqDecision A} : EqDecision (outcome A).
Proof. solve_decision. Defined.

(** Computations that read and write the tables and may throw; what was
    written before a throw stays written. *)
Definition M (A : Type) : Type := world -> outcome A * world.

Definition ret {A} (a : A) : M A := fun w => (Return a, w).

Definition throw {A} (e : Error.t) : M A := fun w => (Throw e, w).

Definition bind {A B} (c : M A) (k : A -> M B) : M B := fun w =>
  match c w with
  | (Return a, w') => k a w'
  | (Throw e, w') => (Throw e, w')
  end.

Definition try_catch {A} (body : M A) (handler : Error.t -> M A) : M A := fun w =>
  match body w with
  | (Return a, w') => (Return a, w')
  | (Throw e, w') => handler e w'
  end.

Notation "x <- c ;; k" := (bind c (fun x => k))
  (at level 200, c at level 99, right associativity).

(** The tables once the other requests have taken their next step. *)
Definition interfere (w : world) : db := others w (clock w) (store w).

(** One storage step: what the other requests did meanwhile lands, then
    [run] executes atomically on the tables and the call is logged. *)
Definition send {A} (c : call) (run : db -> outcome A * db) : M A := fun w =>
  let '(r, s') := run (interfere w) in
  (r, mkworld s' (others w) (S (clock w)) (log w ++ [c])).

(** The document client refuses to marshal [NaN] and the infinities. What
    else the client and DynamoDB refuse is left to [storable]. *)
Definition marshal (x : number) : option Qc :=
  match x with Num q => Some q | _ => None end.

Definition number_toString_special (x : number) : string :=
  match x with
  | NaN => "NaN"
  | PosInf => "Infinity"
  | NegInf => "-Infinity"
  | Num _ => ""
  end.

Definition special_numeric_error (x : number) : Error.t :=
  new_Error ("Special numeric value " +:+ number_toString_special x +:+ " is not allowed").

Definition TransactionCanceledException : Error.t :=
  Error.make "TransactionCanceledException"
    "Transaction cancelled, please refer cancellation reasons for specific reasons".

(** [GetCommand] on [Users]. *)
Definition get_user (userId : string) : M (option UserItem.t) :=
  send (Get USERS_TABLE userId) (fun s => (Return (Users s !! userId), s)).

(** [GetCommand] on [Transactions]. *)
Definition get_transaction (idempotentKey : string) : M (option TransactionItem.t) :=
  send (Get TRANSACTIONS_TABLE idempotentKey)
       (fun s => (Return (Transactions s !! idempotentKey), s)).

(** DynamoDB's answer to an item whose key attribute is the empty string. *)
Definition ValidationException (attribute : string) : Error.t :=
  Error.make "ValidationException"
    ("One or more parameter values are not valid. The AttributeValue for a key attribute "
     +:+ "cannot contain an empty string value. Key: " +:+ attribute).

(** [PutCommand] on [Users]: the item replaces whatever the key held. *)
Definition put_user (userId : string) (balance : number) (createdAt updatedAt : string)
  : M unit :=
  send (Put USERS_TABLE userId) (fun s =>
    match marshal balance with
    | Some b =>
        if falsy userId then (Throw (ValidationException "userId"), s)
        else
          (Return (),
           mkdb (<[userId := UserItem.make (Some b) (Some createdAt) (Some updatedAt)]>
                   (Users s))
                (Transactions s))
    | None => (Throw (special_numeric_error balance), s)
    end).

(** The [Put] of the transactional write: the item of [Transactions], under
    the condition [attribute_not_exists(idempotentKey)]. *)
Module PutItem.
Record t := make {
  idempotentKey : string;
  transactionId : string;
  userId : string;
  amount : number;
  type : string;
  newBalance : number;
  timestamp : string
}.
End PutItem.

(** The [Update] of the transactional write:
    [ADD balance :balanceChange SET updatedAt = :updatedAt] on the key
    [userId], with [ConditionExpression] [balance >= :minBalance] when
    [minBalance] is set. *)
Module UpdateExpression.
Record t := make {
  userId : string;
  balanceChange : number;
  updatedAt : string;
  minBalance : option number
}.
End UpdateExpression.

(** [attribute_not_exists(idempotentKey)] on the addressed item. *)
Definition put_condition (key : string) (s : db) : bool :=
  bool_decide (Transactions s !! key = None).

(** [balance >= :minBalance]: false when the item or its [balance] is
    absent. *)
Definition update_condition (userId : string) (minBalance : option Qc) (s : db) : bool :=
  match minBalance with
  | None => true
  | Some m =>
      match Users s !! userId ≫= UserItem.balance with
      | Some b => bool_decide (m <= b)%Qc
      | None => false
      end
  end.

(** [ADD] starts from [0] when the attribute is absent, and an update of an
    absent key creates the item. *)
Definition apply_update (change : Qc) (updatedAt : string) (old : option UserItem.t)
  : UserItem.t :=
  match old with
  | Some item =>
      UserItem.make (Some (default (Q2Qc 0) (UserItem.balance item) + change)%Qc)
                    (UserItem.createdAt item) (Some updatedAt)
  | None => UserItem.make (Some (Q2Qc 0 + change)%Qc) None (Some updatedAt)
  end.

Definition marshal_opt (x : option number) : option (option Qc) :=
  match x with
  | None => Some None
  | Some n => Some <$> marshal n
  end.

(** [TransactWriteCommand]: both conditions are evaluated on the same
    tables and either both writes apply or none does. *)
Definition transact_write_run (p : PutItem.t) (u : UpdateExpression.t) (s : db)
  : outcome unit * db :=
  match marshal (PutItem.amount p) with
  | None => (Throw (special_numeric_error (PutItem.amount p)), s)
  | Some amount =>
  match marshal (PutItem.newBalance p) with
  | None => (Throw (special_numeric_error (PutItem.newBalance p)), s)
  | Some newBalance =>
  match marshal (UpdateExpression.balanceChange u) with
  | None => (Throw (special_numeric_error (UpdateExpression.balanceChange u)), s)
  | Some change =>
  match marshal_opt (UpdateExpression.minBalance u) with
  | None => (Throw (special_numeric_error (default NaN (UpdateExpression.minBalance u))), s)
  | Some minBalance =>
      let key := PutItem.idempotentKey p in
      let userId := UpdateExpression.userId u in
      if put_condition key s && update_condition userId minBalance s then
        (Return (),
         mkdb (<[userId := apply_update change (UpdateExpression.updatedAt u)
                                        (Users s !! userId)]> (Users s))
              (<[key := TransactionItem.make (PutItem.transactionId p) (PutItem.userId p)
                          amount (PutItem.type p) newBalance (PutItem.timestamp p)]>
                 (Transactions s)))
      else (Throw TransactionCanceledException, s)
  end end end end.

Definition transact_write (p : PutItem.t) (u : UpdateExpression.t) : M unit :=
  send (TransactWrite (PutItem.idempotentKey p) (UpdateExpression.userId u))
       (transact_write_run p u).

(** ** What a call takes from the runtime *)

(** [Date_now] is [Date.now()], [Math_random_36] is
    [Math.random().toString(36)] and [toISOString] is
    [new Date().toISOString()]. *)
Record runtime := mkruntime {
  Date_now : N;
  Math_random_36 : string;
  toISOString : string
}.

Definition N_toString (n : N) : string := NilZero.string_of_uint (N.to_uint n).

(** [s.substr(start, length)]. *)
Definition substr (start length : nat) (s : string) : string :=
  String.substring start length s.

(** ** [getCurrentBalance] *)

(** [result.Item.userId] is the key the item was read under. *)
Definition getCurrentBalance (input : GetBalanceInput.t) : M GetBalanceOutput.t :=
  let userId := GetBalanceInput.userId input in
  if falsy userId then throw (new_Error msg_userId_required)
  else
    result <- get_user userId ;;
    match result with
    | None => throw (new_Error (msg_user_not_found userId))
    | Some _ =>
        ret (GetBalanceOutput.make userId (js_or (Item_balance result) zero))
    end.

(** ** [transact] *)

Definition transact (rt : runtime) (input : TransactInput.t) : M TransactOutput.t :=
  let idempotentKey := TransactInput.idempotentKey input in
  let userId := TransactInput.userId input in
  let amount := TransactInput.amount input in
  let type := TransactInput.type input in
  if falsy idempotentKey || falsy userId || falsy amount || falsy type then
    throw (new_Error msg_fields_required)
  else
  let numericAmount := parseFloat amount in
  if isNaN numericAmount || num_leb numericAmount zero then
    throw (new_Error msg_amount_positive)
  else
  if negb (bool_decide (type = "credit")) && negb (bool_decide (type = "debit")) then
    throw (new_Error msg_type_invalid)
  else
  (* Step 1: idempotency probe *)
  existingTransaction <- get_transaction idempotentKey ;;
  match existingTransaction with
  | Some item =>
      ret (TransactOutput.make true (TransactionItem.transactionId item)
             (Num (TransactionItem.newBalance item)) (Some msg_replayed))
  | None =>
  (* Step 2: current user data *)
  userResult <- get_user userId ;;
  match userResult with
  | None => throw (new_Error (msg_user_not_found userId))
  | Some _ =>
  let currentBalance := js_or (Item_balance userResult) zero in
  (* Step 3: balance change *)
  let balanceChange :=
    if bool_decide (type = "credit") then numericAmount else num_neg numericAmount in
  let calculatedNewBalance := num_add currentBalance balanceChange in
  (* Step 4: optimistic check *)
  if num_ltb calculatedNewBalance zero then throw (new_Error msg_insufficient)
  else
  (* Step 5: transaction id *)
  let transactionId :=
    "txn_" +:+ N_toString (Date_now rt) +:+ "_" +:+ substr 2 9 (Math_random_36 rt) in
  let timestamp := toISOString rt in
  (* Step 6: the balance update, conditional for debits *)
  let updateExpression :=
    UpdateExpression.make userId balanceChange timestamp
      (if bool_decide (type = "debit") then Some numericAmount else None) in
  (* Step 7: the atomic write *)
  let putItem :=
    PutItem.make idempotentKey transactionId userId numericAmount type
                 calculatedNewBalance timestamp in
  try_catch
    (_ <- transact_write putItem updateExpression ;;
     (* Step 8: the balance after the write *)
     updatedUserResult <- get_user userId ;;
     let actualNewBalance := js_or (Item_balance updatedUserResult) calculatedNewBalance in
     ret (TransactOutput.make true transactionId actualNewBalance None))
    (fun error =>
       if bool_decide (Error.name error = "TransactionCanceledException") then
         checkAgain <- get_transaction idempotentKey ;;
         match checkAgain with
         | Some item =>
             userBalanceResult <- get_user userId ;;
             let currentActualBalance :=
               js_or (Item_balance userBalanceResult)
                     (Num (TransactionItem.newBalance item)) in
             ret (TransactOutput.make true (TransactionItem.transactionId item)
                    currentActualBalance (Some msg_replayed_concurrent))
         | None =>
             currentBalanceResult <- get_user userId ;;
             let latestBalance := js_or (Item_balance currentBalanceResult) zero in
             let wouldBeBalance := num_add latestBalance balanceChange in
             if num_ltb wouldBeBalance zero then throw (new_Error msg_insufficient)
             else throw (new_Error msg_concurrent)
         end
       else throw error)
  end
  end.

(** ** [createUser] *)

(** The two timestamps are the two [new Date().toISOString()] of the item. *)
Definition createUser (createdAt updatedAt : string)
    (userId : string) (initialBalance : number) : M unit :=
  put_user userId initialBalance createdAt updatedAt.

(** [createUserHandler], reduced to the status code of its reply; an absent
    [initialBalance] defaults to [0]. *)
Definition createUserHandler (createdAt updatedAt : string)
    (userId : string) (initialBalance : option number) : world -> nat * world := fun w =>
  let initialBalance := default zero initialBalance in
  if falsy userId then (400%nat, w)
  else
    match createUser createdAt updatedAt userId initialBalance w with
    | (Return _, w') => (201%nat, w')
    | (Throw _, w') => (500%nat, w')
    end.

(** ** Sequences of operations *)

Inductive operation :=
| CreateAccount (createdAt updatedAt : string) (userId : string) (initialBalance : number)
| ApplyTransaction (rt : runtime) (input : TransactInput.t)
| GetBalance (userId : string).

Inductive response :=
| Created (r : outcome unit)
| Applied (r : outcome TransactOutput.t)
| Balance (r : outcome GetBalanceOutput.t).

(** One operation run to completion, alone, on the tables [s]. *)
Definition perform (o : operation) (s : db) : response * db :=
  match o with
  | CreateAccount c u userId b =>
      let '(r, w) := createUser c u userId b (alone s) in (Created r, store w)
  | ApplyTransaction rt input =>
      let '(r, w) := transact rt input (alone s) in (Applied r, store w)
  | GetBalance userId =>
      let '(r, w) := getCurrentBalance (GetBalanceInput.make userId) (alone s) in
      (Balance r, store w)
  end.

(** The tables and the response after each operation of the sequence. *)
Fixpoint run (ops : list operation) (s : db) : list (response * db) :=
  match ops with
  | [] => []
  | o :: rest => let '(r, s') := perform o s in (r, s') :: run rest s'
  end.

(** The tables after the whole sequence. *)
Definition final (ops : list operation) (s : db) : db :=
  fold_left (fun s o => snd (perform o s)) ops s.

(** ** [clearTransactionsTable] *)

(** A storage step of the maintenance path. It is a step like any other for
    the other requests; the log keeps to the calls of the request path. *)
Definition send_unlogged {A} (run : db -> outcome A * db) : M A := fun w =>
  let '(r, s') := run (interfere w) in
  (r, mkworld s' (others w) (S (clock w)) (log w)).

(** [ScanCommand] on [Transactions]. One call returns one page of the
    table; [page] gives the [idempotentKey] of the items of that page, the
    only attribute the caller reads. *)
Definition scan_transactions (page : db -> list string) : M (list string) :=
  send_unlogged (fun s => (Return (page s), s)).

(** The page of a table small enough to be scanned in one call. *)
Definition whole_table (s : db) : list string := (map_to_list (Transactions s)).*1.

(** [DeleteCommand] on [Transactions]: deleting an absent key does nothing. *)
Definition delete_transaction (idempotentKey : string) : M unit :=
  send_unlogged (fun s => (Return (), mkdb (Users s) (delete idempotentKey (Transactions s)))).

(** [for (const item of result.Items) { await docClient.send(deleteCommand) }]. *)
Fixpoint delete_each (Items : list string) : M unit :=
  match Items with
  | [] => ret ()
  | idempotentKey :: rest => _ <- delete_transaction idempotentKey ;; delete_each rest
  end.

(** The tables are taken to exist, so no step throws
    [ResourceNotFoundException]; the handler is kept as written. *)
Definition clearTransactionsTable (page : db -> list string) : M unit :=
  try_catch
    (Items <- scan_transactions page ;;
     if (0 <? length Items)%nat then delete_each Items else ret ())
    (fun error =>
       if negb (bool_decide (Error.name error = "ResourceNotFoundException"))
       then throw error
       else ret ()).

(** ** The handlers ([src/controllers/wallet.controller.ts]) *)

(** [error.message || fallback]. *)
Definition message_or (e : Error.t) (fallback : string) : string :=
  if falsy (Error.message e) then fallback else Error.message e.

Module BalanceReply.
Record t := make {
  code : nat;
  success : bool;
  data : option GetBalanceOutput.t;
  error : option string
}.
End BalanceReply.


(** The [data] of a successful reply of [transactHandler]. *)
Module TransactData.
Record t := make {
  transactionId : string;
  newBalance : number;
  message : option string
}.
End TransactData.

Module TransactReply.
Record t := make {
  code : nat;
  success : bool;
  data : option TransactData.t;
  error : option string
}.
End TransactReply.

Definition transactHandler (rt : runtime) (body : TransactInput.t)
  : world -> TransactReply.t * world := fun w =>
  let idempotentKey := TransactInput.idempotentKey body in
  let userId := TransactInput.userId body in
  let amount := TransactInput.amount body in
  let type := TransactInput.type body in
  if falsy idempotentKey || falsy userId || falsy amount || falsy type then
    (TransactReply.make 400 false None (Some msg_fields_required), w)
  else
    match transact rt (TransactInput.make idempotentKey userId amount type) w with
    | (Return result, w') =>
        (TransactReply.make 200 (TransactOutput.success result)
           (Some (TransactData.make (TransactOutput.transactionId result)
                    (TransactOutput.newBalance result) (TransactOutput.message result)))
           None, w')
    | (Throw error, w') =>
        (TransactReply.make (statusCode error) false None
           (Some (message_or error "Failed to process transaction")), w')
    end.

(** ** Vocabulary of the properties *)

(** A strictly positive number, as [transact] tests it: not [NaN] and not
    [<= 0]. *)
Definition positive (x : number) : bool := negb (isNaN x || num_leb x zero).

Definition credit_or_debit (type : string) : bool :=
  bool_decide (type = "credit") || bool_decide (type = "debit").

(** The inputs that pass the validation of [transact]. *)
Definition valid_input (input : TransactInput.t) : bool :=
  negb (falsy (TransactInput.idempotentKey input))
  && negb (falsy (TransactInput.userId input))
  && negb (falsy (TransactInput.amount input))
  && negb (falsy (TransactInput.type input))
  && positive (parseFloat (TransactInput.amount input))
  && credit_or_debit (TransactInput.type input).

(** A decimal string in the words of the specification: an optional sign,
    digits, and optionally a point followed by digits; nothing else. *)
Definition decimal_string (s : string) : bool :=
  let body :=
    match s with
    | String "+" r => r
    | String "-" r => r
    | _ => s
    end in
  let '(_, n1, r1) := read_digits body 0 0 in
  (0 <? n1)%nat &&
  match r1 with
  | EmptyString => true
  | String "." r2 =>
      let '(_, n2, r3) := read_digits r2 0 0 in
      (0 <? n2)%nat && bool_decide (r3 = "")
  | _ => false
  end.

(** "A decimal string parseable to a strictly positive numeric value". *)
Definition positive_decimal_string (s : string) : bool :=
  decimal_string s && positive (parseFloat s) && isFinite (parseFloat s).

(** The balance a reader of the account sees: [Item.balance || 0]. *)
Definition current_balance (s : db) (userId : string) : number :=
  js_or (Item_balance (Users s !! userId)) zero.

(** The stored [balance] attribute of an account, if any. *)
Definition stored_balance (s : db) (userId : string) : option Qc :=
  Users s !! userId ≫= UserItem.balance.

(** [+amount] for a credit, [-amount] otherwise. *)
Definition balanceChange (input : TransactInput.t) : number :=
  if bool_decide (TransactInput.type input = "credit")
  then parseFloat (TransactInput.amount input)
  else num_neg (parseFloat (TransactInput.amount input)).

(** The identifier [transact] generates from the runtime. *)
Definition fresh_transactionId (rt : runtime) : string :=
  "txn_" +:+ N_toString (Date_now rt) +:+ "_" +:+ substr 2 9 (Math_random_36 rt).

(** The tables as the storage step number [n] of a call finds them, when
    the call itself has written nothing so far. *)
Fixpoint seen (w : world) (n : nat) : db :=
  others w (n + clock w)
    match n with
    | O => store w
    | S m => seen w m
    end.

(** The signed change of a transaction of magnitude [a]. *)
Definition signed (input : TransactInput.t) (a : Qc) : Qc :=
  if bool_decide (TransactInput.type input = "credit") then a else (- a)%Qc.

(** The balance projected from the tables [read] at the account lookup. *)
Definition projected (input : TransactInput.t) (a : Qc) (read : db) : Qc :=
  (default (Q2Qc 0) (stored_balance read (TransactInput.userId input)) + signed input a)%Qc.

(** The record a fresh commit inserts. *)
Definition recorded (rt : runtime) (input : TransactInput.t) (a snapshot : Qc)
  : TransactionItem.t :=
  TransactionItem.make (fresh_transactionId rt) (TransactInput.userId input) a
    (TransactInput.type input) snapshot (toISOString rt).

(** The tables [s] after the atomic write of a call that read the account
    in the tables [read]. *)
Definition committed (rt : runtime) (input : TransactInput.t) (a : Qc) (read s : db) : db :=
  let userId := TransactInput.userId input in
  mkdb (<[userId := apply_update (signed input a) (toISOString rt) (Users s !! userId)]>
          (Users s))
       (<[TransactInput.idempotentKey input := recorded rt input a (projected input a read)]>
          (Transactions s)).

(** The two conditions of the atomic write. *)
Definition guards (input : TransactInput.t) (a : Qc) (s : db) : bool :=
  put_condition (TransactInput.idempotentKey input) s
  && update_condition (TransactInput.userId input)
       (if bool_decide (TransactInput.type input = "debit") then Some a else None) s.

(** The calls of a fresh commit, and of a rejected one. *)
Definition calls_committed (input : TransactInput.t) : list call :=
  [Get TRANSACTIONS_TABLE (TransactInput.idempotentKey input);
   Get USERS_TABLE (TransactInput.userId input);
   TransactWrite (TransactInput.idempotentKey input) (TransactInput.userId input);
   Get USERS_TABLE (TransactInput.userId input)].

Definition calls_rejected (input : TransactInput.t) : list call :=
  [Get TRANSACTIONS_TABLE (TransactInput.idempotentKey input);
   Get USERS_TABLE (TransactInput.userId input);
   TransactWrite (TransactInput.idempotentKey input) (TransactInput.userId input);
   Get TRANSACTIONS_TABLE (TransactInput.idempotentKey input);
   Get USERS_TABLE (TransactInput.userId input)].

(** Number of atomic writes among logged calls. *)
Definition commits (l : list call) : nat := length (List.filter is_TransactWrite l).

(** No stored balance is negative. *)
Definition nonneg (s : db) : Prop :=
  forall userId item b,
    Users s !! userId = Some item -> UserItem.balance item = Some b -> (Q2Qc 0 <= b)%Qc.

(** Operations allowed in a sequence: accounts are created with a
    non-negative initial balance. *)
Definition admissible (o : operation) : Prop :=
  match o with
  | CreateAccount _ _ _ b => num_leb zero b = true
  | _ => True
  end.

(** A response that shows no negative balance. *)
Definition shows_nonneg (r : response) : Prop :=
  match r with
  | Balance (Return o) => num_leb zero (GetBalanceOutput.balance o) = true
  | _ => True
  end.

(** ** Properties of computations *)

(** [P] holds of the tables and whatever the other requests do keeps it. *)
Definition steady (P : db -> Prop) (w : world) : Prop :=
  P (store w) /\ forall n s, P s -> P (others w n s).

(** The computation keeps [P], whatever it returns or throws. *)
Definition keeps (P : db -> Prop) {A} (c : M A) : Prop :=
  forall w, steady P w -> steady P (snd (c w)).

(** The computation appends to the log, and at most [n] atomic writes. *)
Definition logs (n : nat) {A} (c : M A) : Prop :=
  forall w, exists l : list call, log (snd (c w)) = log w ++ l /\ (commits l <= n)%nat.

(** A change is safe when it is an increase without condition or a
    decrease by exactly the required minimum. *)
Definition safe_update (u : UpdateExpression.t) : Prop :=
  forall c, UpdateExpression.balanceChange u = Num c ->
    (UpdateExpression.minBalance u = None /\ (Q2Qc 0 <= c)%Qc)
    \/ (exists m, UpdateExpression.minBalance u = Some (Num m) /\ c = (- m)%Qc).

(** ** Statements of the specification that the code does not meet *)



(** Creating an account that exists replaces its item and raises no
    error, whatever the initial balance. *)
Definition createUser_always_replaces : Prop :=
  forall (createdAt updatedAt userId : string) (initialBalance : number) (s : db)
         (old : UserItem.t),
    userId <> "" ->
    Users s !! userId = Some old ->
    exists w',
      createUser createdAt updatedAt userId initialBalance (alone s) = (Return (), w')
      /\ (Users (store w') !! userId ≫= UserItem.createdAt) = Some createdAt.

(** An input with an empty key or account, an amount that is not a decimal
    string of a strictly positive value, or a direction other than credit
    and debit. *)
Definition malformed (input : TransactInput.t) : bool :=
  falsy (TransactInput.idempotentKey input)
  || falsy (TransactInput.userId input)
  || negb (positive_decimal_string (TransactInput.amount input))
  || negb (credit_or_debit (TransactInput.type input)).

(** ** Concrete runs *)

Definition rt1 : runtime :=
  mkruntime 1700000000000 "0.4fzyo82mvyr" "2026-01-01T00:00:00.000Z".
Definition rt2 : runtime :=
  mkruntime 1700000000250 "0.k3x9q2b7m1c" "2026-01-01T00:00:00.250Z".
Definition rt3 : runtime :=
  mkruntime 1700000000500 "0.z8w1e5r2t6y" "2026-01-01T00:00:00.500Z".

(** The tables with the single account ["u"] created with balance [b]. *)
Definition account_u (b : Z) : db :=
  final [CreateAccount "2026-01-01T00:00:00.000Z" "2026-01-01T00:00:00.000Z" "u" (of_Z b)]
        empty_db.

Definition request (key amount type : string) : TransactInput.t :=
  TransactInput.make key "u" amount type.

(** Another request's whole transaction lands before our storage step
    number [n]. *)
Definition lands (n : nat) (rt : runtime) (input : TransactInput.t) : nat -> db -> db :=
  fun m s => if (m =? n)%nat then final [ApplyTransaction rt input] s else s.

(** A debit of 70 lands just before our atomic write and a credit of 50
    just before we read the balance again. *)
Definition squeeze : nat -> db -> db :=
  fun m s => lands 4 rt3 (request "kC" "50" "credit") m
               (lands 2 rt2 (request "kB" "70" "debit") m s).

(** An account of 100 on which another request's debit of 60 lands just
    before our fourth storage step, the reading back of the balance. *)
Definition overtaken : world :=
  among (lands 3 rt2 (request "kB" "60" "debit")) (account_u 100).

(** ** Vocabulary of the further properties *)

(** The tables after [n] steps of the other requests alone. *)
Definition drift (w : world) (n : nat) : db :=
  match n with
  | O => store w
  | S m => seen w m
  end.

(** No proper or improper non-empty end of [sub] begins [t]: an occurrence
    of [sub] cannot run from a string into [t] appended to it. *)
Fixpoint no_overlap (sub t : string) : bool :=
  match sub with
  | EmptyString => true
  | String _ r => negb (String.prefix sub t) && no_overlap r t
  end.

(** One of the words that make [transactHandler] answer 409. *)
Definition conflict_word (s : string) : bool :=
  includes "Insufficient balance" s || includes "concurrent" s || includes "retry" s.

(** The finite value of an amount, [0] when it has none. *)
Definition amount_value (amount : string) : Qc :=
  match parseFloat amount with
  | Num a => a
  | _ => Q2Qc 0
  end.

(** A credit to [userId] drawn as runtime, key and amount. *)
Definition credit_of (userId : string) (c : runtime * string * string) : operation :=
  ApplyTransaction (fst (fst c)) (TransactInput.make (snd (fst c)) userId (snd c) "credit").

(** The sum of the amounts of a list of credits. *)
Definition total (l : list (runtime * string * string)) : Qc :=
  fold_right (fun c acc => (amount_value (snd c) + acc)%Qc) (Q2Qc 0) l.

(** ** Where the arithmetic of the model is that of the code *)


(** The balance the account holds in [s], the amount [a] and the balance
    projected from them are safe integers. On such a call JavaScript reads
    the balance as it is stored and computes the projected balance exactly,
    and every number sent is one the client and DynamoDB accept; this is
    proved below from [js_read], [js_plus] and [storable]. *)
Definition exact_on (input : TransactInput.t) (a : Qc) (s : db) : bool :=
  safe_integer (default (Q2Qc 0) (stored_balance s (TransactInput.userId input)))
  && safe_integer a
  && safe_integer (projected input a s).

(** [calculatedNewBalance] (line 114) as JavaScript computes it on an
    account whose stored balance is [b]: the double nearest to the sum of
    the balance read (line 110) and the change. A commit stores it in the
    record (line 160) and a replay returns it (line 93). *)
Definition js_calculatedNewBalance (input : TransactInput.t) (b : Qc) : number :=
  js_plus (js_or (Some (js_read b)) zero) (balanceChange input).

(** [actualNewBalance] (line 182) of a commit run alone on that account:
    DynamoDB's sum of the stored balance and the change sent to it (line
    130), read back by the call, which returns it (line 187); none when the
    client refuses the change. *)
Definition js_actualNewBalance (input : TransactInput.t) (b : Qc) : option number :=
  (fun change => js_or (Some (js_read (b + change)%Qc)) (js_calculatedNewBalance input b))
    <$> marshal (balanceChange input).

(** The errors [transact] itself throws on the request [input]: the three
    of the validation, the missing account, the insufficient balance and
    the concurrent modification. An error of the storage is none of them. *)
Definition own_error (input : TransactInput.t) (e : Error.t) : bool :=
  bool_decide
    (e ∈ [new_Error msg_fields_required;
          new_Error msg_amount_positive;
          new_Error msg_type_invalid;
          new_Error (msg_user_not_found (TransactInput.userId input));
          new_Error msg_insufficient;
          new_Error msg_concurrent]).

(** * Properties *)

(** ** Numbers *)

Lemma Qc_zero_add (q : Qc) : (Q2Qc 0 + q)%Qc = q.
Proof. apply Qcplus_0_l. Qed.

Lemma positive_cases (x : number) :
  positive x = true -> x = PosInf \/ exists q, x = Num q /\ (Q2Qc 0 < q)%Qc.
Proof.
  unfold positive. destruct x as [| | |q]; simpl; try discriminate; auto.
  intros H. right. exists q. split; [reflexivity|].
  case_bool_decide as Hq; [discriminate|].
  apply Qcnot_le_lt. exact Hq.
Qed.

Lemma positive_Num (q : Qc) : positive (Num q) = true <-> (Q2Qc 0 < q)%Qc.
Proof.
  unfold positive; simpl. split.
  - intros H. case_bool_decide as Hq; [discriminate|]. by apply Qcnot_le_lt.
  - intros H. rewrite bool_decide_eq_false_2; [reflexivity|]. by apply Qclt_not_le.
Qed.

(** [Item.balance || 0] is the stored balance, [0] when it is absent. *)
Lemma js_or_zero (b : option Qc) : js_or (Num <$> b) zero = Num (default (Q2Qc 0) b).
Proof.
  destruct b as [q|]; simpl; [|reflexivity].
  case_bool_decide as Hq; simpl; [by subst|reflexivity].
Qed.

Lemma current_balance_eq (s : db) (u : string) :
  current_balance s u = Num (default (Q2Qc 0) (stored_balance s u)).
Proof. unfold current_balance, Item_balance, stored_balance. apply js_or_zero. Qed.

(** [parseFloat] on the shapes of amount a caller may send. *)

Example parseFloat_30 : parseFloat "30" = of_Z 30.
Proof. compute_done. Qed.

Example parseFloat_fraction : parseFloat "10.50" = Num (Q2Qc (21 # 2)).
Proof. compute_done. Qed.

Example parseFloat_exponent : parseFloat "  1.5e3xyz" = of_Z 1500.
Proof. compute_done. Qed.

Example parseFloat_small : parseFloat ".5e-1" = Num (Q2Qc (1 # 20)).
Proof. compute_done. Qed.

Example parseFloat_negative : parseFloat "-10" = of_Z (-10).
Proof. compute_done. Qed.

Example parseFloat_trailing : parseFloat "10abc" = of_Z 10.
Proof. compute_done. Qed.

Example parseFloat_letters : parseFloat "abc" = NaN.
Proof. compute_done. Qed.

Example parseFloat_dot : parseFloat "." = NaN.
Proof. compute_done. Qed.

Example parseFloat_dangling_e : parseFloat "7e+" = of_Z 7.
Proof. compute_done. Qed.

Example parseFloat_infinity : parseFloat "-Infinity" = NegInf.
Proof. compute_done. Qed.

Example parseFloat_rounds : parseFloat "100.00000000000000001" = of_Z 100.
Proof. compute_done. Qed.

Example parseFloat_ties_to_even : parseFloat "9007199254740993" = of_Z 9007199254740992.
Proof. compute_done. Qed.

Example parseFloat_overflows : parseFloat "1e400" = PosInf.
Proof. compute_done. Qed.

Example parseFloat_underflows : parseFloat "1e-400" = zero.
Proof. compute_done. Qed.

Example parseFloat_no_break_space :
  parseFloat (String (ascii_of_nat 194) (String (ascii_of_nat 160) "12")) = of_Z 12.
Proof. compute_done. Qed.

Example parseFloat_line_separator :
  parseFloat (String (ascii_of_nat 226) (String (ascii_of_nat 128)
                (String (ascii_of_nat 168) "12"))) = of_Z 12.
Proof. compute_done. Qed.

(** Doubles and the decimals they are printed as. *)

Example js_read_third :
  js_read (Q2Qc (1 # 3)) = Num (Q2Qc (3333333333333333 # 10000000000000000)).
Proof. compute_done. Qed.

Example js_read_smallest :
  js_read (Q2Qc (3 # Z.to_pos (10 ^ 324))) = Num (Q2Qc (5 # Z.to_pos (10 ^ 324))).
Proof. compute_done. Qed.

Example js_plus_rounds :
  js_plus (parseFloat "1.1") (parseFloat "2.2")
  = Num (Q2Qc (33000000000000003 # 10000000000000000)).
Proof. compute_done. Qed.

Example js_plus_integers : js_plus (of_Z 100) (of_Z (-40)) = of_Z 60.
Proof. compute_done. Qed.

Example storable_bounds :
  storable (of_Z MAX_SAFE_INTEGER) = true
  /\ storable (of_Z (MAX_SAFE_INTEGER + 1)) = false
  /\ storable (parseFloat "1e-130") = true
  /\ storable (parseFloat "1e-131") = false
  /\ storable (parseFloat "0.5") = true
  /\ storable PosInf = false.
Proof. split_and!; compute_done. Qed.

(** The status code of a thrown value follows from its kind. *)
Lemma statusCode_of_kind (e : Error.t) :
  statusCode e =
    match kind_of e with
    | InvalidInput => 400%nat
    | AccountNotFound => 404%nat
    | InsufficientBalance | ConcurrencyConflict => 409%nat
    | Unclassified => 500%nat
    end.
Proof.
  unfold statusCode, kind_of.
  destruct (includes "Insufficient balance" _); [reflexivity|].
  destruct (includes "concurrent" _ || includes "retry" _) eqn:H;
    cbn [orb]; rewrite H; [reflexivity|].
  destruct (includes "not found" _); [reflexivity|].
  destruct (includes "must be" _ || includes "required" _); reflexivity.
Qed.

(** ** Doubles on safe integers *)

Lemma floor_log2_integer (n : Z) : 0 < n -> floor_log2 n 1 = Z.log2 n.
Proof.
  intros Hn. unfold floor_log2. change (Z.log2 1) with 0. rewrite Z.sub_0_r.
  pose proof (Z.log2_nonneg n) as He. pose proof (Z.log2_spec n Hn) as [Hlo _].
  destruct (0 <=? Z.log2 n) eqn:H0; [|lia].
  rewrite Z.mul_1_l. by rewrite (proj2 (Z.leb_le _ _) Hlo).
Qed.

Lemma round_half_even_1 (n : Z) : round_half_even n 1 = n.
Proof. unfold round_half_even. by rewrite Z.mod_1_r, Z.div_1_r. Qed.

Lemma round_half_even_lower (n d : Z) : n / d <= round_half_even n d.
Proof.
  unfold round_half_even. destruct (2 * (n mod d) ?= d); [destruct (Z.even _)|..]; lia.
Qed.

Lemma log2_below_53 (n : Z) : 0 < n < 2 ^ 53 -> 0 <= Z.log2 n < 53.
Proof.
  intros [Hn Hlt]. split; [apply Z.log2_nonneg|].
  apply Z.log2_lt_pow2; [exact Hn|exact Hlt].
Qed.

(** A positive integer below [2^53] is a double. *)
Lemma binary64_integer (n : Z) :
  0 < n < 2 ^ 53 ->
  binary64 n 1 = (n * 2 ^ (52 - Z.log2 n), Z.log2 n - 52).
Proof.
  intros Hn. pose proof (log2_below_53 n Hn) as He.
  unfold binary64. rewrite (floor_log2_integer n) by lia.
  rewrite Z.max_l by lia.
  destruct (0 <=? Z.log2 n - 52) eqn:Ht.
  - apply Z.leb_le in Ht. replace (Z.log2 n) with 52 by lia.
    cbn. by rewrite round_half_even_1, Z.mul_1_r.
  - rewrite round_half_even_1. do 3 f_equal. lia.
Qed.

Lemma binary64_value_integer (n : Z) :
  0 < n < 2 ^ 53 -> (binary64_value (binary64 n 1) == inject_Z n)%Q.
Proof.
  intros Hn. pose proof (log2_below_53 n Hn) as He.
  rewrite (binary64_integer n Hn). unfold binary64_value. cbn [fst snd].
  destruct (0 <=? Z.log2 n - 52) eqn:Ht.
  - apply Z.leb_le in Ht. replace (Z.log2 n) with 52 by lia.
    change (52 - 52) with 0. unfold Qeq; cbn [inject_Z Qnum Qden]. rewrite Z.pow_0_r. lia.
  - apply Z.leb_gt in Ht. unfold Qeq, inject_Z. cbn [Qnum Qden].
    replace (- (Z.log2 n - 52)) with (52 - Z.log2 n) by lia.
    rewrite Z2Pos.id by (apply Z.pow_pos_nonneg; lia). lia.
Qed.

(** An integer from [2^53] to [2^54] is read as a double that is at least
    [2^53]. *)
Lemma binary64_value_large (c : Z) :
  2 ^ 53 <= c < 2 ^ 54 -> (inject_Z (2 ^ 53) <= binary64_value (binary64 c 1))%Q.
Proof.
  intros [Hlo Hhi]. unfold binary64.
  rewrite (floor_log2_integer c) by lia.
  assert (Hlog : Z.log2 c = 53) by (apply Z.log2_unique; lia).
  rewrite Hlog. change (Z.max (53 - 52) (-1074)) with 1. change (0 <=? 1) with true.
  cbv iota. unfold binary64_value. cbn [fst snd]. change (0 <=? 1) with true. cbv iota.
  rewrite <- Zle_Qle. pose proof (round_half_even_lower c (1 * 2 ^ 1)) as H.
  change (1 * 2 ^ 1) with 2 in *. change (2 ^ 1) with 2.
  assert (2 ^ 52 <= c / 2) by (apply Z.div_le_lower_bound; lia). lia.
Qed.

Section SafeInteger.
Context (n : Z) (x : Z * Z) (v : Q).
Hypothesis Hn : 0 < n < 2 ^ 53.
Hypothesis Hx : x = binary64 n 1.
Hypothesis Hv : v = binary64_value x.

Lemma value_integer : (v == inject_Z n)%Q.
Proof. rewrite Hv, Hx. apply binary64_value_integer, Hn. Qed.

Lemma value_log2 : Z.log2 (Qnum v) - Z.log2 (Zpos (Qden v)) = Z.log2 n.
Proof.
  pose proof (log2_below_53 n Hn) as He.
  rewrite Hv, Hx, (binary64_integer n Hn). unfold binary64_value. cbn [fst snd].
  destruct (0 <=? Z.log2 n - 52) eqn:Ht.
  - apply Z.leb_le in Ht. assert (Heq : 52 - Z.log2 n = 0) by lia.
    assert (Heq' : Z.log2 n - 52 = 0) by lia.
    cbn [inject_Z Qnum Qden]. rewrite Heq, Heq', Z.pow_0_r, !Z.mul_1_r.
    change (Z.log2 1) with 0. lia.
  - apply Z.leb_gt in Ht. cbn [Qnum Qden].
    replace (- (Z.log2 n - 52)) with (52 - Z.log2 n) by lia.
    rewrite Z2Pos.id by (apply Z.pow_pos_nonneg; lia).
    rewrite Z.log2_mul_pow2 by lia. rewrite Z.log2_pow2 by lia. lia.
Qed.

Lemma reaches_iff (k : Z) : 0 <= k -> Qle_bool (pow10 k) v = true <-> 10 ^ k <= n.
Proof.
  intros Hk. rewrite Qle_bool_iff, value_integer. unfold pow10.
  rewrite (proj2 (Z.leb_le _ _) Hk). by rewrite <- Zle_Qle.
Qed.

Lemma floor_log10_bounds : 0 <= floor_log10 v <= 15.
Proof.
  unfold floor_log10. rewrite value_log2.
  pose proof (log2_below_53 n Hn) as He.
  set (e := Z.log2 n * 30103 / 100000).
  assert (He0 : 0 <= e) by (apply Z.div_pos; lia).
  assert (He15 : e < 16) by (apply Z.div_lt_upper_bound; lia).
  assert (Hsmall : forall k, 0 <= k -> Qle_bool (pow10 k) v = true -> k <= 15).
  { intros k Hk Hr. apply (reaches_iff k Hk) in Hr.
    destruct (Z_le_gt_dec k 15) as [|Hbig]; [assumption|exfalso].
    assert (10 ^ 16 <= 10 ^ k) by (apply Z.pow_le_mono_r; lia).
    assert (2 ^ 53 < 10 ^ 16) by reflexivity. lia. }
  assert (H0 : Qle_bool (pow10 0) v = true).
  { apply reaches_iff; [lia|change (10 ^ 0) with 1; lia]. }
  destruct (Qle_bool (pow10 (e + 2)) v) eqn:H2; [split; [lia|apply Hsmall; [lia|exact H2]]|].
  destruct (Qle_bool (pow10 (e + 1)) v) eqn:H1; [split; [lia|apply Hsmall; [lia|exact H1]]|].
  destruct (Qle_bool (pow10 e) v) eqn:He'; [split; [lia|apply Hsmall; [lia|exact He']]|].
  assert (e <> 0) by (intros E; rewrite E in He'; congruence).
  destruct (Qle_bool (pow10 (e - 1)) v) eqn:Hm1; [split; [lia|apply Hsmall; [lia|exact Hm1]]|].
  assert (e <> 1) by (intros E; rewrite E in Hm1; change (1 - 1) with 0 in Hm1; congruence).
  lia.
Qed.

Lemma floor_div_pow10 (p : Z) : 0 <= p -> Qfloor (v / pow10 p) = n / 10 ^ p.
Proof.
  intros Hp. unfold pow10. rewrite (proj2 (Z.leb_le _ _) Hp).
  assert (Hpos : 0 < 10 ^ p) by (apply Z.pow_pos_nonneg; lia).
  rewrite (Qfloor_comp _ (n # Z.to_pos (10 ^ p))).
  - unfold Qfloor. by rewrite Z2Pos.id.
  - rewrite value_integer, Qmake_Qdiv. by rewrite Z2Pos.id.
Qed.

(** With [p] digits left out, the decimals around the integer are the two
    multiples of [10^p] around it. *)
Lemma decimals_around_integer (j p : Z) (c : Q) :
  p = floor_log10 v + 1 - j ->
  0 <= p ->
  In c (decimals_around v j) <->
  c = inject_Z (n / 10 ^ p * 10 ^ p) \/ c = inject_Z ((n / 10 ^ p + 1) * 10 ^ p).
Proof.
  intros -> Hp. unfold decimals_around. rewrite (floor_div_pow10 _ Hp).
  set (p := floor_log10 v + 1 - j) in *. set (lo := n / 10 ^ p).
  assert (Hb : (inject_Z lo * pow10 p)%Q = inject_Z (lo * 10 ^ p)).
  { unfold pow10. by rewrite (proj2 (Z.leb_le _ _) Hp). }
  assert (Ha : (inject_Z (lo + 1) * pow10 p)%Q = inject_Z ((lo + 1) * 10 ^ p)).
  { unfold pow10. by rewrite (proj2 (Z.leb_le _ _) Hp). }
  rewrite Hb, Ha.
  destruct (_ ?= _)%Q; [destruct (Z.even lo)|..]; cbn [In]; intuition congruence.
Qed.

(** Of the integers below [2^54], only [n] is read as the double of [n]. *)
Lemma reads_as_integer (k : Z) :
  0 <= k < 2 ^ 54 -> reads_as x (inject_Z k) = true -> k = n.
Proof.
  intros [Hk0 Hk] Hr. unfold reads_as in Hr. apply andb_prop in Hr as [Hpos Heq].
  cbn [inject_Z Qnum] in Hpos. apply Z.ltb_lt in Hpos.
  apply Qeq_bool_iff in Heq. change (binary64_of (inject_Z k)) with (binary64 k 1) in Heq.
  rewrite <- Hv, value_integer in Heq.
  destruct (Z_lt_ge_dec k (2 ^ 53)) as [Hsmall|Hlarge].
  - rewrite binary64_value_integer in Heq by lia.
    by apply (proj1 (inject_Z_injective k n)).
  - exfalso. pose proof (binary64_value_large k ltac:(lia)) as Hge.
    rewrite Heq in Hge. rewrite <- Zle_Qle in Hge. lia.
Qed.

Lemma reads_as_self : reads_as x (inject_Z n) = true.
Proof.
  unfold reads_as. cbn [inject_Z Qnum]. rewrite (proj2 (Z.ltb_lt 0 n)) by lia.
  apply Qeq_bool_iff. change (binary64_of (n # 1)) with (binary64 n 1).
  by rewrite Hx.
Qed.

(** The decimal printed for the double of [n] is [n]: a shorter decimal
    that is read as this double would be another integer below [2^54]. *)
Lemma shortest_decimal_integer (fuel : nat) (j : Z) :
  1 <= j <= floor_log10 v + 1 ->
  floor_log10 v + 2 - j <= Z.of_nat fuel ->
  (shortest_decimal x j fuel == inject_Z n)%Q.
Proof.
  pose proof floor_log10_bounds as Hr.
  revert j. induction fuel as [|fuel IH]; intros j Hj Hfuel; [cbn in Hfuel; lia|].
  cbn [shortest_decimal]. rewrite <- Hv.
  set (p := floor_log10 v + 1 - j).
  assert (Hp : 0 <= p <= 15) by (unfold p; lia).
  assert (H10 : 0 < 10 ^ p <= 10 ^ 15).
  { split; [apply Z.pow_pos_nonneg; lia|apply Z.pow_le_mono_r; lia]. }
  assert (Hlo : 0 <= n / 10 ^ p * 10 ^ p <= n).
  { pose proof (Z.mul_div_le n (10 ^ p) ltac:(lia)).
    pose proof (Z.div_pos n (10 ^ p) ltac:(lia) ltac:(lia)). nia. }
  assert (H54 : 2 ^ 53 + 10 ^ 15 < 2 ^ 54) by reflexivity.
  destruct (List.filter (reads_as x) (decimals_around v j)) as [|c rest] eqn:Hf.
  - destruct (Z.eq_dec p 0) as [Hp0|Hp0].
    + exfalso.
      assert (Hin : In (inject_Z n) (List.filter (reads_as x) (decimals_around v j))).
      { apply filter_In. split; [|exact reads_as_self].
        apply (decimals_around_integer j p); [reflexivity|lia|]. left.
        rewrite Hp0. change (10 ^ 0) with 1. by rewrite Z.div_1_r, Z.mul_1_r. }
      by rewrite Hf in Hin.
    + apply IH; unfold p in *; lia.
  - assert (Hin : In c (List.filter (reads_as x) (decimals_around v j)))
      by (rewrite Hf; by left).
    apply filter_In in Hin as [Hin Hread].
    apply (decimals_around_integer j p) in Hin; [|reflexivity|lia].
    destruct Hin as [->| ->]; apply reads_as_integer in Hread as ->; try reflexivity; nia.
Qed.

End SafeInteger.

Lemma number_of_positive_integer (n : Z) :
  0 < n < 2 ^ 53 -> number_of_positive (inject_Z n) = Num (Q2Qc (inject_Z n)).
Proof.
  intros Hn. unfold number_of_positive. change (binary64_of (inject_Z n)) with (binary64 n 1).
  pose proof (floor_log10_bounds n _ _ Hn eq_refl eq_refl) as Hr.
  pose proof (shortest_decimal_integer n _ _ Hn eq_refl eq_refl 17 1
                ltac:(lia) ltac:(cbn; lia)) as Hs.
  pose proof (log2_below_53 n Hn) as He.
  rewrite (binary64_integer n Hn) in *. cbn [fst snd].
  assert (H2 : 0 < 2 ^ (52 - Z.log2 n)) by (apply Z.pow_pos_nonneg; lia).
  rewrite (proj2 (Z.eqb_neq _ 0)) by nia.
  assert (Hno : overflows (n * 2 ^ (52 - Z.log2 n), Z.log2 n - 52) = false).
  { unfold overflows. cbn [fst snd]. apply Z.leb_gt.
    destruct (Z.eq_dec (Z.log2 n) 52) as [E|E].
    - rewrite E. change (52 - 52) with 0. rewrite Z.pow_0_r, !Z.mul_1_r.
      assert (2 ^ 53 < 2 ^ 1024) by (apply Z.pow_lt_mono_r; lia). lia.
    - rewrite (Z.pow_neg_r 2 (Z.log2 n - 52)) by lia. rewrite Z.mul_0_r.
      apply Z.pow_pos_nonneg; lia. }
  rewrite Hno. f_equal. apply Qc_is_canon. cbn [Q2Qc this]. by rewrite !Qred_correct.
Qed.

Lemma safe_integer_inv (q : Qc) :
  safe_integer q = true -> exists n, - 2 ^ 53 < n < 2 ^ 53 /\ this q = inject_Z n.
Proof.
  destruct q as [[n d] Hc]. unfold safe_integer, MAX_SAFE_INTEGER. cbn [this Qnum Qden].
  intros [Hd Hn]%andb_prop. apply Z.eqb_eq in Hd. apply Z.leb_le in Hn.
  exists n. split; [lia|]. unfold inject_Z. f_equal. congruence.
Qed.

Lemma Q2Qc_this (q : Qc) (r : Q) : (r == q)%Q -> Q2Qc r = q.
Proof. intros H. apply Qc_is_canon. cbn [Q2Qc this]. by rewrite Qred_correct. Qed.

(** JavaScript reads a safe integer as itself. *)
Lemma js_read_safe_integer (q : Qc) : safe_integer q = true -> js_read q = Num q.
Proof.
  intros Hq. destruct (safe_integer_inv q Hq) as (n & Hn & Hthis).
  unfold js_read. rewrite Hthis. cbn [inject_Z Qnum].
  destruct n as [|p|p].
  - unfold zero. f_equal. apply Q2Qc_this. by rewrite Hthis.
  - rewrite (number_of_positive_integer (Z.pos p)) by lia.
    f_equal. apply Q2Qc_this. by rewrite Hthis.
  - change (- inject_Z (Z.neg p))%Q with (inject_Z (Z.pos p)).
    rewrite (number_of_positive_integer (Z.pos p)) by lia. cbn [num_neg]. f_equal.
    apply Qc_is_canon. cbn [Qcopp Q2Qc this]. rewrite !Qred_correct, Hthis. reflexivity.
Qed.

Lemma double_value_safe_integer (q : Qc) : safe_integer q = true -> (double_value q == q)%Q.
Proof.
  intros Hq. destruct (safe_integer_inv q Hq) as (n & Hn & Hthis).
  unfold double_value. rewrite Hthis. cbn [inject_Z Qnum].
  destruct n as [|p|p].
  - reflexivity.
  - change (binary64_of (inject_Z (Z.pos p))) with (binary64 (Z.pos p) 1).
    apply binary64_value_integer. lia.
  - change (binary64_of (- inject_Z (Z.neg p))%Q) with (binary64 (Z.pos p) 1).
    rewrite (binary64_value_integer (Z.pos p)) by lia. reflexivity.
Qed.

(** JavaScript adds two safe integers exactly when the sum is one. *)
Lemma js_plus_safe_integer (a b : Qc) :
  safe_integer a = true -> safe_integer b = true -> safe_integer (a + b) = true ->
  js_plus (Num a) (Num b) = Num (a + b).
Proof.
  intros Ha Hb Hab. unfold js_plus.
  replace (Q2Qc (double_value a + double_value b)) with (a + b)%Qc.
  - by apply js_read_safe_integer.
  - symmetry. apply Q2Qc_this.
    rewrite (double_value_safe_integer a Ha), (double_value_safe_integer b Hb).
    cbn [Qcplus Q2Qc this]. by rewrite Qred_correct.
Qed.

Lemma safe_integer_inject_Z (m : Z) :
  - 2 ^ 53 < m < 2 ^ 53 -> safe_integer (Q2Qc (inject_Z m)) = true.
Proof.
  intros Hm. unfold safe_integer, MAX_SAFE_INTEGER. cbn [Q2Qc this].
  rewrite Qred_identity by (cbn [inject_Z Qnum Qden]; apply Z.gcd_1_r).
  cbn [inject_Z Qnum Qden]. apply andb_true_intro. split; [reflexivity|].
  apply Z.leb_le. lia.
Qed.

Lemma safe_integer_opp (a : Qc) : safe_integer a = true -> safe_integer (- a) = true.
Proof.
  intros Ha. destruct (safe_integer_inv a Ha) as (n & Hn & Hthis).
  replace (- a)%Qc with (Q2Qc (inject_Z (- n))); [apply safe_integer_inject_Z; lia|].
  apply Qc_is_canon. cbn [Qcopp Q2Qc this]. rewrite !Qred_correct, Hthis. reflexivity.
Qed.

Lemma safe_integer_signed (input : TransactInput.t) (a : Qc) :
  safe_integer a = true -> safe_integer (signed input a) = true.
Proof. intros Ha. unfold signed. case_bool_decide; [exact Ha|by apply safe_integer_opp]. Qed.

(** A safe integer can be stored. *)
Lemma safe_integer_storable (q : Qc) : safe_integer q = true -> storable (Num q) = true.
Proof.
  intros Hq. destruct (safe_integer_inv q Hq) as (n & Hn & Hthis).
  unfold storable. rewrite Hthis. cbn [inject_Z Qabs Qnum].
  apply andb_true_intro. split.
  - apply Qle_bool_iff. unfold Qle, MAX_SAFE_INTEGER. cbn [inject_Z Qnum Qden]. lia.
  - destruct (Z.eq_dec n 0) as [->|Hne]; [reflexivity|].
    apply orb_true_intro. right. apply Qle_bool_iff. unfold Qle, pow10.
    cbn [Z.leb Z.compare Qnum Qden Z.opp]. lia.
Qed.

(** ** Validation *)

Lemma valid_input_inv (input : TransactInput.t) :
  valid_input input = true ->
  (falsy (TransactInput.idempotentKey input) || falsy (TransactInput.userId input)
   || falsy (TransactInput.amount input) || falsy (TransactInput.type input)) = false
  /\ (isNaN (parseFloat (TransactInput.amount input))
      || num_leb (parseFloat (TransactInput.amount input)) zero) = false
  /\ (negb (bool_decide (TransactInput.type input = "credit"))
      && negb (bool_decide (TransactInput.type input = "debit"))) = false.
Proof.
  unfold valid_input, positive, credit_or_debit.
  repeat (destruct (falsy _)); simpl; try discriminate.
  destruct (isNaN _ || num_leb _ _); simpl; try discriminate.
  repeat case_bool_decide; simpl; try discriminate; auto.
Qed.

(** After validation [transact] is its storage part. *)
Ltac validated H :=
  let H1 := fresh "Hreq" in
  let H2 := fresh "Hpos" in
  let H3 := fresh "Htype" in
  destruct (valid_input_inv _ H) as (H1 & H2 & H3);
  unfold transact; rewrite H1, H2, H3; clear H1 H2 H3.

Lemma invalid_input_cases (input : TransactInput.t) :
  valid_input input = false ->
  (falsy (TransactInput.idempotentKey input) || falsy (TransactInput.userId input)
   || falsy (TransactInput.amount input) || falsy (TransactInput.type input)) = true
  \/ (isNaN (parseFloat (TransactInput.amount input))
      || num_leb (parseFloat (TransactInput.amount input)) zero) = true
  \/ (negb (bool_decide (TransactInput.type input = "credit"))
      && negb (bool_decide (TransactInput.type input = "debit"))) = true.
Proof.
  unfold valid_input, positive, credit_or_debit.
  repeat (destruct (falsy _)); simpl; auto.
  destruct (isNaN _ || num_leb _ _); simpl; auto.
  repeat case_bool_decide; simpl; auto.
Qed.

Lemma transact_invalid (rt : runtime) (input : TransactInput.t) (w : world) :
  valid_input input = false ->
  transact rt input w = (Throw (new_Error msg_fields_required), w)
  \/ transact rt input w = (Throw (new_Error msg_amount_positive), w)
  \/ transact rt input w = (Throw (new_Error msg_type_invalid), w).
Proof.
  intros H. unfold transact.
  destruct (falsy _ || falsy _ || falsy _ || falsy _) eqn:Hreq; [by left|].
  destruct (isNaN _ || num_leb _ _) eqn:Hpos; [by right; left|].
  destruct (negb _ && negb _) eqn:Htype; [by right; right|].
  destruct (invalid_input_cases _ H) as [H'|[H'|H']]; congruence.
Qed.

(** ** Replay at the idempotency probe *)

(** A valid call whose key has a record when the probe reads the ledger
    returns what the record holds, after that single read. *)
Lemma transact_replays (rt : runtime) (input : TransactInput.t) (w : world)
    (item : TransactionItem.t) :
  valid_input input = true ->
  Transactions (interfere w) !! TransactInput.idempotentKey input = Some item ->
  transact rt input w =
    (Return (TransactOutput.make true (TransactionItem.transactionId item)
               (Num (TransactionItem.newBalance item)) (Some msg_replayed)),
     mkworld (interfere w) (others w) (S (clock w))
             (log w ++ [Get TRANSACTIONS_TABLE (TransactInput.idempotentKey input)])).
Proof.
  intros Hv Hitem. validated Hv.
  unfold bind, get_transaction, send. rewrite Hitem. reflexivity.
Qed.

(** ** The paths of [transact] after the probe *)

Lemma balanceChange_Num (input : TransactInput.t) (a : Qc) :
  parseFloat (TransactInput.amount input) = Num a ->
  balanceChange input = Num (signed input a).
Proof. unfold balanceChange, signed. intros ->. by case_bool_decide. Qed.

Lemma projection_Num (input : TransactInput.t) (a : Qc) (s : db) :
  parseFloat (TransactInput.amount input) = Num a ->
  num_add (current_balance s (TransactInput.userId input)) (balanceChange input)
  = Num (projected input a s).
Proof.
  intros Ha. rewrite (balanceChange_Num _ _ Ha), current_balance_eq. reflexivity.
Qed.

Lemma num_ltb_zero (q : Qc) : num_ltb (Num q) zero = false <-> (Q2Qc 0 <= q)%Qc.
Proof.
  simpl. split.
  - intros H. case_bool_decide as Hq; [discriminate|]. by apply Qcnot_lt_le.
  - intros H. apply bool_decide_eq_false_2. by apply Qcle_not_lt.
Qed.

Ltac storage_step :=
  unfold bind, try_catch, get_transaction, get_user, transact_write, send, ret, throw,
    interfere;
  cbn [seen Nat.add store others clock log fst snd
       PutItem.idempotentKey UpdateExpression.userId].

(** The account is missing when the call looks it up. *)
Lemma transact_user_not_found (rt : runtime) (input : TransactInput.t) (w : world) :
  valid_input input = true ->
  Transactions (seen w 0) !! TransactInput.idempotentKey input = None ->
  Users (seen w 1) !! TransactInput.userId input = None ->
  transact rt input w =
    (Throw (new_Error (msg_user_not_found (TransactInput.userId input))),
     mkworld (seen w 1) (others w) (2 + clock w)
       (log w ++ [Get TRANSACTIONS_TABLE (TransactInput.idempotentKey input);
                  Get USERS_TABLE (TransactInput.userId input)])).
Proof.
  intros Hv Hkey Huser. validated Hv. storage_step.
  unfold interfere; cbn. simpl in Hkey, Huser. rewrite Hkey. cbn. rewrite Huser.
  by rewrite <- app_assoc.
Qed.

(** The optimistic check fails. *)
Lemma transact_insufficient (rt : runtime) (input : TransactInput.t) (w : world) :
  valid_input input = true ->
  Transactions (seen w 0) !! TransactInput.idempotentKey input = None ->
  is_Some (Users (seen w 1) !! TransactInput.userId input) ->
  num_ltb (num_add (current_balance (seen w 1) (TransactInput.userId input))
                   (balanceChange input)) zero = true ->
  transact rt input w =
    (Throw (new_Error msg_insufficient),
     mkworld (seen w 1) (others w) (2 + clock w)
       (log w ++ [Get TRANSACTIONS_TABLE (TransactInput.idempotentKey input);
                  Get USERS_TABLE (TransactInput.userId input)])).
Proof.
  intros Hv Hkey [item Huser] Hlow. validated Hv. storage_step.
  unfold interfere; cbn. simpl in Hkey, Huser, Hlow. rewrite Hkey. cbn.
  unfold current_balance, balanceChange in Hlow. rewrite Huser in Hlow |- *.
  rewrite Hlow. by rewrite <- app_assoc.
Qed.

(** What the atomic write does when the amount is finite. *)
Lemma transact_write_run_finite (rt : runtime) (input : TransactInput.t) (a : Qc)
    (read s : db) :
  transact_write_run
    (PutItem.make (TransactInput.idempotentKey input) (fresh_transactionId rt)
       (TransactInput.userId input) (Num a) (TransactInput.type input)
       (Num (projected input a read)) (toISOString rt))
    (UpdateExpression.make (TransactInput.userId input) (Num (signed input a))
       (toISOString rt)
       (if bool_decide (TransactInput.type input = "debit") then Some (Num a) else None))
    s
  = if guards input a s then (Return (), committed rt input a read s)
    else (Throw TransactionCanceledException, s).
Proof.
  unfold transact_write_run, guards; cbn.
  case_bool_decide; cbn; reflexivity.
Qed.

Section AfterLookup.
Context (rt : runtime) (input : TransactInput.t) (w : world) (a : Qc).
Hypothesis Hvalid : valid_input input = true.
Hypothesis Hamount : parseFloat (TransactInput.amount input) = Num a.
Hypothesis Hfresh : Transactions (seen w 0) !! TransactInput.idempotentKey input = None.
Hypothesis Huser : is_Some (Users (seen w 1) !! TransactInput.userId input).
Hypothesis Hcheck : (Q2Qc 0 <= projected input a (seen w 1))%Qc.

Let key := TransactInput.idempotentKey input.
Let userId := TransactInput.userId input.

(** Up to the atomic write, the call is the write followed by what the
    code does with its result. *)
Lemma transact_reaches_write :
  transact rt input w =
    try_catch
      (_ <- transact_write
              (PutItem.make key (fresh_transactionId rt) userId (Num a)
                 (TransactInput.type input) (Num (projected input a (seen w 1)))
                 (toISOString rt))
              (UpdateExpression.make userId (Num (signed input a)) (toISOString rt)
                 (if bool_decide (TransactInput.type input = "debit")
                  then Some (Num a) else None)) ;;
       updatedUserResult <- get_user userId ;;
       ret (TransactOutput.make true (fresh_transactionId rt)
              (js_or (Item_balance updatedUserResult) (Num (projected input a (seen w 1))))
              None))
      (fun error =>
         if bool_decide (Error.name error = "TransactionCanceledException") then
           checkAgain <- get_transaction key ;;
           match checkAgain with
           | Some item =>
               userBalanceResult <- get_user userId ;;
               ret (TransactOutput.make true (TransactionItem.transactionId item)
                      (js_or (Item_balance userBalanceResult)
                             (Num (TransactionItem.newBalance item)))
                      (Some msg_replayed_concurrent))
           | None =>
               currentBalanceResult <- get_user userId ;;
               if num_ltb (num_add (js_or (Item_balance currentBalanceResult) zero)
                                   (Num (signed input a))) zero
               then throw (new_Error msg_insufficient)
               else throw (new_Error msg_concurrent)
           end
         else throw error)
      (mkworld (seen w 1) (others w) (2 + clock w)
         (log w ++ [Get TRANSACTIONS_TABLE key; Get USERS_TABLE userId])).
Proof.
  destruct Huser as [item Hitem]. validated Hvalid.
  unfold bind at 1, get_transaction at 1, send at 1.
  unfold interfere; cbn. simpl in Hfresh, Hitem. rewrite Hfresh. cbn.
  unfold bind at 1, get_user at 1, send at 1.
  unfold interfere; cbn. rewrite Hitem.
  pose proof (projection_Num input a (seen w 1) Hamount) as Hp.
  pose proof (balanceChange_Num input a Hamount) as Hc.
  unfold current_balance, balanceChange in Hp, Hc. simpl in Hp.
  rewrite Hitem in Hp. rewrite Hamount in *. rewrite Hp, Hc.
  pose proof (proj2 (num_ltb_zero _) Hcheck) as Hlt.
  cbn [seen Nat.add] in Hlt. rewrite Hlt.
  rewrite <- app_assoc. reflexivity.
Qed.
End AfterLookup.

Section AfterWrite.
Context (rt : runtime) (input : TransactInput.t) (w : world) (a : Qc).
Hypothesis Hvalid : valid_input input = true.
Hypothesis Hamount : parseFloat (TransactInput.amount input) = Num a.
Hypothesis Hfresh : Transactions (seen w 0) !! TransactInput.idempotentKey input = None.
Hypothesis Huser : is_Some (Users (seen w 1) !! TransactInput.userId input).
Hypothesis Hcheck : (Q2Qc 0 <= projected input a (seen w 1))%Qc.

Let key := TransactInput.idempotentKey input.
Let userId := TransactInput.userId input.

(** Both conditions hold: the write applies and the balance is read back. *)
Lemma transact_commits :
  guards input a (seen w 2) = true ->
  let s3 := others w (3 + clock w) (committed rt input a (seen w 1) (seen w 2)) in
  transact rt input w =
    (Return (TransactOutput.make true (fresh_transactionId rt)
               (js_or (Item_balance (Users s3 !! userId))
                      (Num (projected input a (seen w 1))))
               None),
     mkworld s3 (others w) (4 + clock w) (log w ++ calls_committed input)).
Proof.
  intros Hg s3. rewrite (transact_reaches_write rt input w a) by assumption.
  storage_step. rewrite transact_write_run_finite.
  cbn [seen Nat.add] in Hg. rewrite Hg. storage_step.
  unfold calls_committed. by rewrite <- !app_assoc.
Qed.

(** A condition fails and the key has a record by now: the call answers
    as a replay, with the balance it reads at that moment. *)
Lemma transact_rejected_duplicate (item : TransactionItem.t) :
  guards input a (seen w 2) = false ->
  Transactions (seen w 3) !! key = Some item ->
  transact rt input w =
    (Return (TransactOutput.make true (TransactionItem.transactionId item)
               (js_or (Item_balance (Users (seen w 4) !! userId))
                      (Num (TransactionItem.newBalance item)))
               (Some msg_replayed_concurrent)),
     mkworld (seen w 4) (others w) (5 + clock w) (log w ++ calls_rejected input)).
Proof.
  intros Hg Hitem. rewrite (transact_reaches_write rt input w a) by assumption.
  storage_step. rewrite transact_write_run_finite.
  cbn [seen Nat.add] in Hg, Hitem. rewrite Hg.
  rewrite bool_decide_eq_true_2 by reflexivity. storage_step.
  unfold key in Hitem. rewrite Hitem. storage_step.
  unfold calls_rejected. by rewrite <- !app_assoc.
Qed.

(** A condition fails, the key still has no record, and the balance read
    again cannot bear the change. *)
Lemma transact_rejected_insufficient :
  guards input a (seen w 2) = false ->
  Transactions (seen w 3) !! key = None ->
  (projected input a (seen w 4) < Q2Qc 0)%Qc ->
  transact rt input w =
    (Throw (new_Error msg_insufficient),
     mkworld (seen w 4) (others w) (5 + clock w) (log w ++ calls_rejected input)).
Proof.
  intros Hg Hnone Hlow. rewrite (transact_reaches_write rt input w a) by assumption.
  storage_step. rewrite transact_write_run_finite.
  cbn [seen Nat.add] in Hg, Hnone, Hlow. rewrite Hg.
  rewrite bool_decide_eq_true_2 by reflexivity. storage_step.
  unfold key in Hnone. rewrite Hnone. storage_step.
  pose proof (projection_Num input a
                (others w (S (S (S (S (clock w)))))
                   (others w (S (S (S (clock w))))
                      (others w (S (S (clock w)))
                         (others w (S (clock w)) (others w (clock w) (store w))))))
                Hamount) as Hp.
  rewrite (balanceChange_Num _ _ Hamount) in Hp. unfold current_balance in Hp.
  rewrite Hp. cbn [num_ltb zero]. rewrite bool_decide_eq_true_2 by exact Hlow.
  unfold calls_rejected. by rewrite <- !app_assoc.
Qed.

(** A condition fails, the key still has no record, and the balance read
    again can bear the change: the call gives up at once. *)
Lemma transact_rejected_conflict :
  guards input a (seen w 2) = false ->
  Transactions (seen w 3) !! key = None ->
  (Q2Qc 0 <= projected input a (seen w 4))%Qc ->
  transact rt input w =
    (Throw (new_Error msg_concurrent),
     mkworld (seen w 4) (others w) (5 + clock w) (log w ++ calls_rejected input)).
Proof.
  intros Hg Hnone Hok. rewrite (transact_reaches_write rt input w a) by assumption.
  storage_step. rewrite transact_write_run_finite.
  cbn [seen Nat.add] in Hg, Hnone, Hok. rewrite Hg.
  rewrite bool_decide_eq_true_2 by reflexivity. storage_step.
  unfold key in Hnone. rewrite Hnone. storage_step.
  pose proof (projection_Num input a
                (others w (S (S (S (S (clock w)))))
                   (others w (S (S (S (clock w))))
                      (others w (S (S (clock w)))
                         (others w (S (clock w)) (others w (clock w) (store w))))))
                Hamount) as Hp.
  rewrite (balanceChange_Num _ _ Hamount) in Hp. unfold current_balance in Hp.
  rewrite Hp. cbn [num_ltb zero]. rewrite bool_decide_eq_false_2 by (by apply Qcle_not_lt).
  unfold calls_rejected. by rewrite <- !app_assoc.
Qed.
End AfterWrite.

(** An infinite amount passes the validation and is thrown out later: a
    debit by the optimistic check, a credit by the marshalling of the
    atomic write. *)
Lemma transact_infinite (rt : runtime) (input : TransactInput.t) (w : world) :
  valid_input input = true ->
  parseFloat (TransactInput.amount input) = PosInf ->
  Transactions (seen w 0) !! TransactInput.idempotentKey input = None ->
  is_Some (Users (seen w 1) !! TransactInput.userId input) ->
  exists e w', transact rt input w = (Throw e, w').
Proof.
  intros Hv Ha Hkey [item Huser]. validated Hv. storage_step.
  cbn [seen Nat.add] in Hkey, Huser. rewrite Hkey. storage_step. rewrite Huser.
  unfold Item_balance; cbn [mbind option_bind]. rewrite js_or_zero, Ha.
  case_bool_decide as Hc; cbn [num_neg num_add num_ltb zero].
  - storage_step. unfold transact_write_run. cbn. eauto.
  - eauto.
Qed.

(** ** Sequential runs *)

Lemma seen_alone (s : db) (n : nat) : seen (alone s) n = s.
Proof. induction n as [|n IH]; [reflexivity|]. exact IH. Qed.

Lemma signed_debit (input : TransactInput.t) (a : Qc) :
  TransactInput.type input = "debit" -> signed input a = (- a)%Qc.
Proof. intros H. unfold signed. rewrite H. reflexivity. Qed.

Lemma signed_credit (input : TransactInput.t) (a : Qc) :
  TransactInput.type input = "credit" -> signed input a = a.
Proof. intros H. unfold signed. rewrite H. reflexivity. Qed.

Lemma valid_input_type (input : TransactInput.t) :
  valid_input input = true ->
  TransactInput.type input = "credit" \/ TransactInput.type input = "debit".
Proof.
  intros H. destruct (valid_input_inv _ H) as (_ & _ & Ht).
  repeat case_bool_decide; auto; discriminate.
Qed.

Lemma valid_input_positive (input : TransactInput.t) :
  valid_input input = true -> positive (parseFloat (TransactInput.amount input)) = true.
Proof.
  intros H. destruct (valid_input_inv _ H) as (_ & Hp & _).
  unfold positive. by rewrite Hp.
Qed.

(** When the projection of a positive debit is not negative, the account
    holds at least the amount. *)
Lemma projected_debit_covers (input : TransactInput.t) (a : Qc) (s : db) :
  TransactInput.type input = "debit" ->
  (Q2Qc 0 < a)%Qc ->
  (Q2Qc 0 <= projected input a s)%Qc ->
  exists b, stored_balance s (TransactInput.userId input) = Some b /\ (a <= b)%Qc.
Proof.
  intros Ht Ha. unfold projected. rewrite (signed_debit _ _ Ht).
  destruct (stored_balance s _) as [b|]; cbn [default]; intros Hp.
  - exists b. split; [reflexivity|]. by apply Qcle_minus_iff.
  - exfalso. rewrite Qc_zero_add in Hp.
    apply (Qclt_not_le _ _ Ha). apply Qcopp_le_compat in Hp.
    by rewrite Qcopp_involutive in Hp.
Qed.

(** Alone, a call that passed the probe and the optimistic check meets
    both conditions of the atomic write. *)
Lemma guards_alone (input : TransactInput.t) (a : Qc) (s : db) :
  Transactions s !! TransactInput.idempotentKey input = None ->
  (Q2Qc 0 < a)%Qc ->
  (Q2Qc 0 <= projected input a s)%Qc ->
  guards input a s = true.
Proof.
  intros Hkey Ha Hp. unfold guards, put_condition.
  rewrite bool_decide_eq_true_2 by exact Hkey. cbn [andb].
  case_bool_decide as Ht; [|reflexivity].
  destruct (projected_debit_covers input a s Ht Ha Hp) as (b & Hb & Hab).
  unfold update_condition. unfold stored_balance in Hb. rewrite Hb.
  by apply bool_decide_eq_true_2.
Qed.

Lemma committed_balance (rt : runtime) (input : TransactInput.t) (a : Qc) (read s : db) :
  stored_balance (committed rt input a read s) (TransactInput.userId input)
  = Some (projected input a s).
Proof.
  unfold stored_balance, committed; cbn [Users]. rewrite lookup_insert_eq.
  unfold projected, stored_balance.
  destruct (Users s !! TransactInput.userId input) as [item|]; reflexivity.
Qed.

Lemma committed_record (rt : runtime) (input : TransactInput.t) (a : Qc) (read s : db) :
  Transactions (committed rt input a read s) !! TransactInput.idempotentKey input
  = Some (recorded rt input a (projected input a read)).
Proof. unfold committed; cbn [Transactions]. apply lookup_insert_eq. Qed.

Lemma js_or_same (x : number) : js_or (Some x) x = x.
Proof. unfold js_or. by destruct (truthy x). Qed.

(** Alone, the balance read back after the write is the projected one. *)
Lemma transact_alone_commits (rt : runtime) (input : TransactInput.t) (s : db) (a : Qc) :
  valid_input input = true ->
  parseFloat (TransactInput.amount input) = Num a ->
  Transactions s !! TransactInput.idempotentKey input = None ->
  is_Some (Users s !! TransactInput.userId input) ->
  (Q2Qc 0 <= projected input a s)%Qc ->
  transact rt input (alone s) =
    (Return (TransactOutput.make true (fresh_transactionId rt)
               (Num (projected input a s)) None),
     mkworld (committed rt input a s s) (fun _ s => s) 4 (calls_committed input)).
Proof.
  intros Hv Ha Hkey Huser Hp.
  assert (Hpos : (Q2Qc 0 < a)%Qc).
  { apply positive_Num. rewrite <- Ha. by apply valid_input_positive. }
  rewrite (transact_commits rt input (alone s) a); rewrite ?seen_alone; try assumption.
  - cbn [alone others clock log Nat.add app].
    pose proof (committed_balance rt input a s s) as Hb.
    unfold stored_balance in Hb. unfold Item_balance. rewrite Hb.
    cbn [fmap option_fmap option_map]. by rewrite js_or_same.
  - by apply guards_alone.
Qed.

(** Alone, a fresh success can only come from the committing path. *)
Lemma transact_alone_fresh_inv (rt : runtime) (input : TransactInput.t) (s : db)
    (o : TransactOutput.t) (w' : world) :
  transact rt input (alone s) = (Return o, w') ->
  TransactOutput.message o = None ->
  exists a,
    valid_input input = true
    /\ parseFloat (TransactInput.amount input) = Num a
    /\ (Q2Qc 0 < a)%Qc
    /\ Transactions s !! TransactInput.idempotentKey input = None
    /\ is_Some (Users s !! TransactInput.userId input)
    /\ (Q2Qc 0 <= projected input a s)%Qc
    /\ o = TransactOutput.make true (fresh_transactionId rt) (Num (projected input a s)) None
    /\ w' = mkworld (committed rt input a s s) (fun _ s => s) 4 (calls_committed input).
Proof.
  intros Hrun Hmsg.
  destruct (valid_input input) eqn:Hv; cycle 1.
  { destruct (transact_invalid rt input (alone s) Hv) as [H|[H|H]]; congruence. }
  destruct (Transactions s !! TransactInput.idempotentKey input) as [item|] eqn:Hkey.
  { rewrite (transact_replays rt input (alone s) item Hv Hkey) in Hrun.
    injection Hrun as <- _. discriminate. }
  destruct (Users s !! TransactInput.userId input) as [item|] eqn:Huser; cycle 1.
  { rewrite (transact_user_not_found rt input (alone s) Hv) in Hrun;
      rewrite ?seen_alone; try assumption. discriminate. }
  assert (Hsome : is_Some (Users s !! TransactInput.userId input)) by (rewrite Huser; eauto).
  destruct (positive_cases _ (valid_input_positive _ Hv)) as [Hinf|(a & Ha & Hpos)].
  { destruct (transact_infinite rt input (alone s) Hv Hinf) as (e & w1 & He);
      rewrite ?seen_alone; try assumption. congruence. }
  exists a. destruct (Qclt_le_dec (projected input a s) (Q2Qc 0)) as [Hlow|Hok].
  { rewrite (transact_insufficient rt input (alone s) Hv) in Hrun;
      rewrite ?seen_alone; try assumption; [discriminate|].
    rewrite (projection_Num _ _ _ Ha). cbn [num_ltb zero].
    by apply bool_decide_eq_true_2. }
  rewrite (transact_alone_commits rt input s a Hv Ha Hkey Hsome Hok) in Hrun.
  injection Hrun as <- <-. split_and!; done.
Qed.

(** ** Invariants of the tables under interleaving *)

Section Invariant.
Context (P : db -> Prop).

Lemma keeps_ret {A} (a : A) : keeps P (ret a).
Proof. intros w Hw. exact Hw. Qed.

Lemma keeps_throw {A} (e : Error.t) : keeps P (@throw A e).
Proof. intros w Hw. exact Hw. Qed.

Lemma keeps_bind {A B} (c : M A) (k : A -> M B) :
  keeps P c -> (forall a, keeps P (k a)) -> keeps P (bind c k).
Proof.
  intros Hc Hk w Hw. unfold bind. specialize (Hc w Hw).
  destruct (c w) as [[a|e] w1]; cbn [snd] in *; [by apply Hk|exact Hc].
Qed.

Lemma keeps_try_catch {A} (body : M A) (handler : Error.t -> M A) :
  keeps P body -> (forall e, keeps P (handler e)) -> keeps P (try_catch body handler).
Proof.
  intros Hb Hh w Hw. unfold try_catch. specialize (Hb w Hw).
  destruct (body w) as [[a|e] w1]; cbn [snd] in *; [exact Hb|by apply Hh].
Qed.

Lemma keeps_send {A} (c : call) (run : db -> outcome A * db) :
  (forall s, P s -> P (snd (run s))) -> keeps P (send c run).
Proof.
  intros Hrun w [Hs Ho]. unfold send, interfere.
  specialize (Hrun (others w (clock w) (store w)) (Ho _ _ Hs)).
  destruct (run _) as [r s']. split; [exact Hrun|exact Ho].
Qed.

Lemma keeps_read {A} (c : call) (read : db -> A) :
  keeps P (send c (fun s => (Return (read s), s))).
Proof. apply keeps_send. intros s Hs. exact Hs. Qed.

End Invariant.

Lemma steady_alone (P : db -> Prop) (s : db) : P s -> steady P (alone s).
Proof. intros Hs. split; [exact Hs|]. intros n s' Hs'. exact Hs'. Qed.

Lemma nonneg_empty : nonneg empty_db.
Proof. intros u item b Hu. cbn in Hu. by rewrite lookup_empty in Hu. Qed.

Lemma nonneg_default (s : db) (u : string) :
  nonneg s -> (Q2Qc 0 <= default (Q2Qc 0) (stored_balance s u))%Qc.
Proof.
  intros Hs. unfold stored_balance.
  destruct (Users s !! u) as [item|] eqn:Hu; cbn; [|apply Qcle_refl].
  destruct (UserItem.balance item) as [b|] eqn:Hb; cbn; [|apply Qcle_refl].
  by apply (Hs u item b).
Qed.

Lemma transact_write_run_nonneg (p : PutItem.t) (u : UpdateExpression.t) (s : db) :
  safe_update u -> nonneg s -> nonneg (snd (transact_write_run p u s)).
Proof.
  intros Hsafe Hs. unfold transact_write_run.
  destruct (marshal (PutItem.amount p)) as [amount|]; [|exact Hs].
  destruct (marshal (PutItem.newBalance p)) as [nb|]; [|exact Hs].
  destruct (UpdateExpression.balanceChange u) as [| | |c] eqn:Hc; cbn [marshal]; try exact Hs.
  destruct (marshal_opt (UpdateExpression.minBalance u)) as [min|] eqn:Hmin; [|exact Hs].
  destruct (put_condition _ s && update_condition _ min s) eqn:Hg; [|exact Hs].
  apply andb_prop in Hg as [_ Hupd]. cbn [snd].
  intros v item b Hv Hb. cbn [Users] in Hv.
  destruct (decide (UpdateExpression.userId u = v)) as [Heq|Hne]; cycle 1.
  { rewrite lookup_insert_ne in Hv by exact Hne. by apply (Hs v item b). }
  rewrite Heq in *. clear Heq.
  rewrite lookup_insert_eq in Hv. injection Hv as <-.
  assert (Hb' : Some b = Some (default (Q2Qc 0) (stored_balance s v) + c)%Qc).
  { rewrite <- Hb. unfold apply_update, stored_balance.
    destruct (Users s !! v); reflexivity. }
  injection Hb' as ->.
  destruct (Hsafe c Hc) as [[Hnone Hpos]|(m & Hsome & ->)].
  - apply Qcplus_nonneg_nonneg; [by apply nonneg_default|exact Hpos].
  - rewrite Hsome in Hmin. cbn in Hmin. injection Hmin as <-.
    unfold update_condition in Hupd. unfold stored_balance.
    destruct (Users s !! v ≫= UserItem.balance) as [b0|]; [|discriminate].
    apply bool_decide_eq_true in Hupd. simpl.
    by apply (proj1 (Qcle_minus_iff m b0)).
Qed.

(** The update [transact] builds is safe. *)
Lemma transact_update_safe (userId type ts : string) (x : number) :
  positive x = true ->
  bool_decide (type = "credit") || bool_decide (type = "debit") = true ->
  safe_update
    (UpdateExpression.make userId
       (if bool_decide (type = "credit") then x else num_neg x) ts
       (if bool_decide (type = "debit") then Some x else None)).
Proof.
  intros Hx Ht c. cbn.
  destruct (positive_cases x Hx) as [->|(q & -> & Hq)].
  { by case_bool_decide. }
  case_bool_decide as Hc.
  - intros [= <-]. left. subst type. split; [reflexivity|]. by apply Qclt_le_weak.
  - intros [= <-]. right. exists q.
    cbn [orb] in Ht. rewrite Ht. split; reflexivity.
Qed.

(** [transact] keeps the balances non-negative, alone or among other
    requests that do. *)
Lemma transact_keeps_nonneg (rt : runtime) (input : TransactInput.t) :
  keeps nonneg (transact rt input).
Proof.
  intros w Hw. destruct (valid_input input) eqn:Hv.
  2:{ destruct (transact_invalid rt input w Hv) as [H|[H|H]]; by rewrite H. }
  pose proof (valid_input_positive _ Hv) as Hpos.
  assert (Ht : bool_decide (TransactInput.type input = "credit")
               || bool_decide (TransactInput.type input = "debit") = true).
  { destruct (valid_input_type _ Hv) as [-> | ->]; reflexivity. }
  validated Hv. revert w Hw.
  apply keeps_bind; [apply keeps_read|]. intros [item|]; [apply keeps_ret|].
  apply keeps_bind; [apply keeps_read|]. intros [item|]; [|apply keeps_throw].
  destruct (num_ltb _ zero); [apply keeps_throw|].
  apply keeps_try_catch.
  - apply keeps_bind.
    + apply keeps_send. intros s Hs. apply transact_write_run_nonneg; [|exact Hs].
      by apply transact_update_safe.
    + intros _. apply keeps_bind; [apply keeps_read|]. intros r. apply keeps_ret.
  - intros e.
    destruct (bool_decide (Error.name e = "TransactionCanceledException"));
      [|apply keeps_throw].
    apply keeps_bind; [apply keeps_read|]. intros [item'|].
    + apply keeps_bind; [apply keeps_read|]. intros r. apply keeps_ret.
    + apply keeps_bind; [apply keeps_read|]. intros r.
      destruct (num_ltb _ zero); apply keeps_throw.
Qed.

(** ** [getCurrentBalance] and [createUser] *)

Lemma getCurrentBalance_keeps (P : db -> Prop) (input : GetBalanceInput.t) :
  keeps P (getCurrentBalance input).
Proof.
  unfold getCurrentBalance. destruct (falsy _); [apply keeps_throw|].
  apply keeps_bind; [apply keeps_read|].
  intros [item|]; [apply keeps_ret|apply keeps_throw].
Qed.

(** A successful read returns [Item.balance || 0] of the tables it finds. *)
Lemma getCurrentBalance_returns (input : GetBalanceInput.t) (w w' : world)
    (o : GetBalanceOutput.t) :
  getCurrentBalance input w = (Return o, w') ->
  o = GetBalanceOutput.make (GetBalanceInput.userId input)
        (current_balance (seen w 0) (GetBalanceInput.userId input))
  /\ is_Some (Users (seen w 0) !! GetBalanceInput.userId input)
  /\ w' = mkworld (seen w 0) (others w) (1 + clock w)
            (log w ++ [Get USERS_TABLE (GetBalanceInput.userId input)]).
Proof.
  unfold getCurrentBalance. destruct (falsy _); [discriminate|].
  storage_step. unfold current_balance.
  destruct (Users _ !! _) as [item|]; [|discriminate].
  intros [= <- <-]. split_and!; eauto.
Qed.

Lemma getCurrentBalance_found (userId : string) (w : world) :
  userId <> "" ->
  is_Some (Users (seen w 0) !! userId) ->
  getCurrentBalance (GetBalanceInput.make userId) w =
    (Return (GetBalanceOutput.make userId (current_balance (seen w 0) userId)),
     mkworld (seen w 0) (others w) (1 + clock w) (log w ++ [Get USERS_TABLE userId])).
Proof.
  intros Hne [item Hitem]. unfold getCurrentBalance, falsy. cbn [GetBalanceInput.userId].
  rewrite bool_decide_eq_false_2 by exact Hne. storage_step.
  cbn [seen Nat.add] in Hitem. unfold current_balance. cbn [seen Nat.add].
  by rewrite Hitem.
Qed.

Lemma createUser_keeps_nonneg (c u userId : string) (b : number) :
  num_leb zero b = true -> keeps nonneg (createUser c u userId b).
Proof.
  intros Hb. unfold createUser, put_user. apply keeps_send. intros s Hs.
  destruct b as [| | |q]; cbn [marshal snd]; try exact Hs.
  destruct (falsy userId); cbn [snd]; [exact Hs|].
  intros v item q' Hv Hq. cbn [Users] in Hv.
  destruct (decide (userId = v)) as [Heq|Hne].
  - rewrite Heq, lookup_insert_eq in Hv. injection Hv as <-.
    cbn in Hq. injection Hq as <-. cbn in Hb. by apply bool_decide_eq_true in Hb.
  - rewrite lookup_insert_ne in Hv by exact Hne. by apply (Hs v item q').
Qed.

(** ** Sequences of operations *)

Lemma perform_nonneg (o : operation) (s : db) :
  admissible o -> nonneg s ->
  shows_nonneg (fst (perform o s)) /\ nonneg (snd (perform o s)).
Proof.
  intros Ho Hs. pose proof (steady_alone nonneg s Hs) as Hw.
  destruct o as [c u userId b|rt input|userId]; cbn [perform].
  - pose proof (createUser_keeps_nonneg c u userId b Ho _ Hw) as [H _].
    destruct (createUser c u userId b (alone s)) as [r w']. split; [exact I|exact H].
  - pose proof (transact_keeps_nonneg rt input _ Hw) as [H _].
    destruct (transact rt input (alone s)) as [r w']. split; [exact I|exact H].
  - pose proof (getCurrentBalance_keeps nonneg (GetBalanceInput.make userId) _ Hw) as [H _].
    destruct (getCurrentBalance _ (alone s)) as [[out|e] w'] eqn:Hrun;
      (split; [|exact H]); [|exact I].
    apply getCurrentBalance_returns in Hrun as (-> & _ & _).
    cbn [shows_nonneg fst GetBalanceOutput.balance GetBalanceInput.userId].
    rewrite seen_alone, current_balance_eq. cbn [num_leb zero].
    apply bool_decide_eq_true_2. by apply nonneg_default.
Qed.

Lemma run_nonneg (ops : list operation) (s : db) :
  Forall admissible ops -> nonneg s ->
  Forall (fun rs => shows_nonneg (fst rs) /\ nonneg (snd rs)) (run ops s).
Proof.
  intros Hops. revert s. induction Hops as [|o ops Ho _ IH]; intros s Hs; cbn [run].
  - constructor.
  - pose proof (perform_nonneg o s Ho Hs) as [Hr Hs'].
    destruct (perform o s) as [r s']. constructor; [by split|by apply IH].
Qed.

Lemma final_cons (o : operation) (ops : list operation) (s : db) :
  final (o :: ops) s = final ops (snd (perform o s)).
Proof. reflexivity. Qed.

(** * The claims *)

Lemma replayed_false (o : TransactOutput.t) :
  replayed o = false -> TransactOutput.message o = None.
Proof.
  unfold replayed. destruct (TransactOutput.message o) as [m|]; [|reflexivity].
  rewrite bool_decide_eq_true_2 by eauto. discriminate.
Qed.

(** C1 fails on the code. On an account created with balance 0.1, the
    credit of "0.2" under a new key returns the balance read back after the
    write, DynamoDB's sum 0.3 of the decimals 0.1 and 0.2, while the record
    keeps JavaScript's sum of the two doubles, 0.30000000000000004, and
    that is the balance the replay of the same call returns. *)
Theorem replay_returns_another_balance :
  js_actualNewBalance (request "k1" "0.2" "credit") (Q2Qc (1 # 10))
  = Some (Num (Q2Qc (3 # 10)))
  /\ js_calculatedNewBalance (request "k1" "0.2" "credit") (Q2Qc (1 # 10))
     = Num (Q2Qc (30000000000000004 # 100000000000000000)).
Proof. split; compute_done. Qed.

(** C2. Non-negativity: along every sequence of operations run from the
    empty tables, with accounts created at a non-negative initial balance,
    no stored balance is negative after any operation and no GetBalance
    returns a negative balance. *)
Theorem balances_never_negative (ops : list operation) :
  Forall admissible ops ->
  Forall (fun rs => shows_nonneg (fst rs) /\ nonneg (snd rs)) (run ops empty_db).
Proof. intros Hops. apply run_nonneg; [exact Hops|exact nonneg_empty]. Qed.

Lemma balances_never_negative_witness :
  Forall (fun rs => shows_nonneg (fst rs) /\ nonneg (snd rs))
    (run [CreateAccount "2026-01-01T00:00:00.000Z" "2026-01-01T00:00:00.000Z" "u" (of_Z 100);
          ApplyTransaction rt1 (request "k1" "40" "debit");
          GetBalance "u";
          ApplyTransaction rt2 (request "k2" "100" "debit");
          ApplyTransaction rt3 (request "k3" "60" "debit");
          GetBalance "u"]
         empty_db).
Proof.
  apply balances_never_negative.
  repeat constructor.
Defined.




(** ** At most one atomic write per call *)

Lemma commits_app (l1 l2 : list call) : commits (l1 ++ l2) = (commits l1 + commits l2)%nat.
Proof. unfold commits. by rewrite List.filter_app, List.length_app. Qed.

Lemma logs_ret {A} (a : A) : logs 0 (ret a).
Proof. intros w. exists []. by rewrite app_nil_r. Qed.

Lemma logs_throw {A} (e : Error.t) : logs 0 (@throw A e).
Proof. intros w. exists []. by rewrite app_nil_r. Qed.

Lemma logs_weaken {A} (n m : nat) (c : M A) : (n <= m)%nat -> logs n c -> logs m c.
Proof. intros Hnm Hc w. destruct (Hc w) as (l & Hl & Hn). exists l. split; [done|lia]. Qed.

Lemma logs_bind {A B} (n m : nat) (c : M A) (k : A -> M B) :
  logs n c -> (forall a, logs m (k a)) -> logs (n + m) (bind c k).
Proof.
  intros Hc Hk w. unfold bind. destruct (Hc w) as (l1 & Hl1 & Hn).
  destruct (c w) as [[a|e] w1]; cbn [snd] in *.
  - destruct (Hk a w1) as (l2 & Hl2 & Hm). exists (l1 ++ l2).
    rewrite Hl2, Hl1, app_assoc, commits_app. split; [done|lia].
  - exists l1. split; [done|lia].
Qed.

Lemma logs_try_catch {A} (n m : nat) (body : M A) (handler : Error.t -> M A) :
  logs n body -> (forall e, logs m (handler e)) -> logs (n + m) (try_catch body handler).
Proof.
  intros Hb Hh w. unfold try_catch. destruct (Hb w) as (l1 & Hl1 & Hn).
  destruct (body w) as [[a|e] w1]; cbn [snd] in *.
  - exists l1. split; [done|lia].
  - destruct (Hh e w1) as (l2 & Hl2 & Hm). exists (l1 ++ l2).
    rewrite Hl2, Hl1, app_assoc, commits_app. split; [done|lia].
Qed.

Lemma logs_send {A} (c : call) (run : db -> outcome A * db) :
  logs (if is_TransactWrite c then 1 else 0) (send c run).
Proof.
  intros w. unfold send. destruct (run _) as [r s']. exists [c]. split; [done|].
  unfold commits. by destruct c.
Qed.

(** Whatever the input, the tables and the other requests, a call issues
    at most one atomic write: no path of [transact] goes back to it. *)
Lemma transact_writes_at_most_once (rt : runtime) (input : TransactInput.t) :
  logs 1 (transact rt input).
Proof.
  unfold transact.
  destruct (falsy _ || falsy _ || falsy _ || falsy _); [apply (logs_weaken 0); [lia|apply logs_throw]|].
  destruct (isNaN _ || num_leb _ _); [apply (logs_weaken 0); [lia|apply logs_throw]|].
  destruct (negb _ && negb _); [apply (logs_weaken 0); [lia|apply logs_throw]|].
  apply (logs_bind 0 1); [apply (logs_send (Get _ _))|].
  intros [item|]; [apply (logs_weaken 0); [lia|apply logs_ret]|].
  apply (logs_bind 0 1); [apply (logs_send (Get _ _))|].
  intros [item|]; [|apply (logs_weaken 0); [lia|apply logs_throw]].
  destruct (num_ltb _ zero); [apply (logs_weaken 0); [lia|apply logs_throw]|].
  apply (logs_try_catch 1 0).
  - apply (logs_bind 1 0); [apply (logs_send (TransactWrite _ _))|].
    intros _. apply (logs_bind 0 0); [apply (logs_send (Get _ _))|]. intros r. apply logs_ret.
  - intros e.
    destruct (bool_decide (Error.name e = "TransactionCanceledException"));
      [|apply logs_throw].
    apply (logs_bind 0 0); [apply (logs_send (Get _ _))|]. intros [item'|].
    + apply (logs_bind 0 0); [apply (logs_send (Get _ _))|]. intros r. apply logs_ret.
    + apply (logs_bind 0 0); [apply (logs_send (Get _ _))|]. intros r.
      destruct (num_ltb _ zero); apply logs_throw.
Qed.







(** C6 fails on the code: a debit of 40 on an account of 100 commits, a
    debit of 60 of another request lands before the balance is read back,
    the balance read back is 0, and the call returns 60, the balance it
    projected before the write. *)
Theorem zero_read_back_is_replaced :
  fst (transact rt1 (request "kA" "40" "debit") overtaken)
  = Return (TransactOutput.make true "txn_1700000000000_4fzyo82mv" (of_Z 60) None)
  /\ stored_balance (store (snd (transact rt1 (request "kA" "40" "debit") overtaken))) "u"
     = Some (Q2Qc 0)
  /\ log (snd (transact rt1 (request "kA" "40" "debit") overtaken))
     = calls_committed (request "kA" "40" "debit").
Proof. split_and!; compute_done. Qed.

(** C7 fails on the code: the amount "10abc" is not a decimal string, yet
    the call is not refused. [parseFloat] reads the leading "10", the
    validation lets the call through, and a credit of 10 is committed on
    the account of 100 with the four storage calls of a commit. *)
Theorem amount_with_trailing_text_is_applied :
  malformed (request "k1" "10abc" "credit") = true
  /\ fst (transact rt1 (request "k1" "10abc" "credit") (alone (account_u 100)))
     = Return (TransactOutput.make true "txn_1700000000000_4fzyo82mv" (of_Z 110) None)
  /\ stored_balance
       (store (snd (transact rt1 (request "k1" "10abc" "credit") (alone (account_u 100)))))
       "u"
     = Some (Q2Qc 110)
  /\ log (snd (transact rt1 (request "k1" "10abc" "credit") (alone (account_u 100))))
     = calls_committed (request "k1" "10abc" "credit").
Proof. split_and!; compute_done. Qed.

(** C8. Replay ignores the request: two valid calls that carry the same
    idempotency key, whatever their accountId, amount and direction, get
    the same successful answer, the one held by the record of the key, and
    leave the same world; nothing compares the call with the record. *)
Theorem replay_ignores_request (rt rt' : runtime) (input input' : TransactInput.t)
    (w : world) (item : TransactionItem.t) :
  valid_input input = true ->
  valid_input input' = true ->
  TransactInput.idempotentKey input' = TransactInput.idempotentKey input ->
  Transactions (seen w 0) !! TransactInput.idempotentKey input = Some item ->
  transact rt' input' w = transact rt input w
  /\ fst (transact rt' input' w)
     = Return (TransactOutput.make true (TransactionItem.transactionId item)
                 (Num (TransactionItem.newBalance item)) (Some msg_replayed))
  /\ store (snd (transact rt' input' w)) = seen w 0.
Proof.
  intros Hv Hv' Hkey Hitem.
  rewrite (transact_replays rt input w item Hv Hitem).
  rewrite (transact_replays rt' input' w item Hv'); rewrite Hkey; [|exact Hitem].
  split_and!; reflexivity.
Qed.

Lemma replay_ignores_request_witness :
  transact rt3 (TransactInput.make "k1" "nobody" "999.5" "debit")
    (alone (final [ApplyTransaction rt1 (request "k1" "30" "credit")] (account_u 100)))
  = transact rt2 (request "k1" "30" "credit")
      (alone (final [ApplyTransaction rt1 (request "k1" "30" "credit")] (account_u 100)))
  /\ fst (transact rt3 (TransactInput.make "k1" "nobody" "999.5" "debit")
            (alone (final [ApplyTransaction rt1 (request "k1" "30" "credit")] (account_u 100))))
     = Return (TransactOutput.make true "txn_1700000000000_4fzyo82mv" (of_Z 130)
                 (Some msg_replayed))
  /\ store (snd (transact rt3 (TransactInput.make "k1" "nobody" "999.5" "debit")
                   (alone (final [ApplyTransaction rt1 (request "k1" "30" "credit")]
                                 (account_u 100)))))
     = final [ApplyTransaction rt1 (request "k1" "30" "credit")] (account_u 100).
Proof.
  apply (replay_ignores_request rt2 rt3 (request "k1" "30" "credit")
           (TransactInput.make "k1" "nobody" "999.5" "debit")
           (alone (final [ApplyTransaction rt1 (request "k1" "30" "credit")] (account_u 100)))
           (recorded rt1 (request "k1" "30" "credit") (Q2Qc 30) (Q2Qc 130)));
    compute_done.
Defined.

(** C9 as stated fails: created again with the initial balance
    [Infinity], the account of 100 is not replaced; the document client
    refuses the number and the call throws. *)
Lemma createUser_always_replaces_fails : ~ createUser_always_replaces.
Proof.
  intros H.
  destruct (H "2026-02-02T00:00:00.000Z" "2026-02-02T00:00:00.001Z" "u" PosInf
              (account_u 100)
              (UserItem.make (Some (Q2Qc 100)) (Some "2026-01-01T00:00:00.000Z")
                             (Some "2026-01-01T00:00:00.000Z")))
    as (w' & Hrun & _); [discriminate|compute_done|].
  vm_compute in Hrun. discriminate Hrun.
Qed.

(** C9, amended. Account creation overwrites: creating an account that
    exists, with an initial balance that can be stored, replaces its item
    by the new balance and the new timestamps, whatever it held, without
    error (the handler replies 201); other accounts and the ledger are
    untouched. *)
Theorem createUser_overwrites (createdAt updatedAt userId : string) (b : Qc) (s : db)
    (old : UserItem.t) :
  userId <> "" ->
  storable (Num b) = true ->
  Users s !! userId = Some old ->
  let s' := mkdb (<[userId := UserItem.make (Some b) (Some createdAt) (Some updatedAt)]>
                    (Users s)) (Transactions s) in
  createUser createdAt updatedAt userId (Num b) (alone s)
  = (Return (), mkworld s' (fun _ s => s) 1 [Put USERS_TABLE userId])
  /\ createUserHandler createdAt updatedAt userId (Some (Num b)) (alone s)
     = (201%nat, mkworld s' (fun _ s => s) 1 [Put USERS_TABLE userId])
  /\ Users s' !! userId = Some (UserItem.make (Some b) (Some createdAt) (Some updatedAt))
  /\ (forall v, v <> userId -> Users s' !! v = Users s !! v)
  /\ Transactions s' = Transactions s.
Proof.
  intros Hne _ Hold s'.
  assert (Hrun : createUser createdAt updatedAt userId (Num b) (alone s)
                 = (Return (), mkworld s' (fun _ s => s) 1 [Put USERS_TABLE userId])).
  { unfold createUser, put_user, send, falsy. cbn [marshal].
    by rewrite bool_decide_eq_false_2 by exact Hne. }
  split_and!.
  - exact Hrun.
  - unfold createUserHandler, falsy. rewrite bool_decide_eq_false_2 by exact Hne.
    cbn [default from_option id]. by rewrite Hrun.
  - apply lookup_insert_eq.
  - intros v Hv. apply lookup_insert_ne. congruence.
  - reflexivity.
Qed.

Lemma createUser_overwrites_witness :
  createUser "2026-02-02T00:00:00.000Z" "2026-02-02T00:00:00.001Z" "u" (of_Z 5)
    (alone (final [ApplyTransaction rt1 (request "k1" "30" "credit")] (account_u 100)))
  = (Return (),
     mkworld
       (mkdb (<["u" := UserItem.make (Some (Q2Qc 5)) (Some "2026-02-02T00:00:00.000Z")
                         (Some "2026-02-02T00:00:00.001Z")]>
                (Users (final [ApplyTransaction rt1 (request "k1" "30" "credit")]
                              (account_u 100))))
             (Transactions (final [ApplyTransaction rt1 (request "k1" "30" "credit")]
                                  (account_u 100))))
       (fun _ s => s) 1 [Put USERS_TABLE "u"]).
Proof.
  apply (createUser_overwrites "2026-02-02T00:00:00.000Z" "2026-02-02T00:00:00.001Z" "u"
           (Q2Qc 5)
           (final [ApplyTransaction rt1 (request "k1" "30" "credit")] (account_u 100))
           (UserItem.make (Some (Q2Qc 130)) (Some "2026-01-01T00:00:00.000Z")
                          (Some "2026-01-01T00:00:00.000Z"))).
  - discriminate.
  - compute_done.
  - compute_done.
Defined.



(** * Further properties of the code *)

(** ** [transact]: what a call leaves behind *)

Lemma transact_infinite_store (rt : runtime) (input : TransactInput.t) (w : world) :
  valid_input input = true ->
  parseFloat (TransactInput.amount input) = PosInf ->
  Transactions (seen w 0) !! TransactInput.idempotentKey input = None ->
  is_Some (Users (seen w 1) !! TransactInput.userId input) ->
  exists e w',
    transact rt input w = (Throw e, w')
    /\ (store w' = seen w 1 \/ store w' = seen w 2).
Proof.
  intros Hv Ha Hkey [item Huser]. validated Hv. storage_step.
  cbn [seen Nat.add] in Hkey, Huser. rewrite Hkey. storage_step. rewrite Huser.
  unfold Item_balance; cbn [mbind option_bind]. rewrite js_or_zero, Ha.
  case_bool_decide as Hc; cbn [num_neg num_add num_ltb zero].
  - storage_step. unfold transact_write_run. cbn. eexists _, _. split; [reflexivity|].
    right. reflexivity.
  - eexists _, _. split; [reflexivity|]. left. reflexivity.
Qed.

Lemma transact_throws_drift (rt : runtime) (input : TransactInput.t)
    (w w' : world) (e : Error.t) :
  transact rt input w = (Throw e, w') ->
  exists n, store w' = drift w n.
Proof.
  intros Hrun. destruct (valid_input input) eqn:Hv; cycle 1.
  { exists 0%nat. destruct (transact_invalid rt input w Hv) as [H|[H|H]];
      rewrite H in Hrun; by injection Hrun as _ <-. }
  destruct (Transactions (seen w 0) !! TransactInput.idempotentKey input)
    as [item|] eqn:Hkey.
  { rewrite (transact_replays rt input w item Hv Hkey) in Hrun. discriminate. }
  destruct (Users (seen w 1) !! TransactInput.userId input) as [item|] eqn:Huser; cycle 1.
  { rewrite (transact_user_not_found rt input w Hv Hkey Huser) in Hrun.
    injection Hrun as _ <-. by exists 2%nat. }
  assert (Hsome : is_Some (Users (seen w 1) !! TransactInput.userId input))
    by (rewrite Huser; eauto).
  destruct (positive_cases _ (valid_input_positive _ Hv)) as [Hinf|(a & Ha & Hpos)].
  { destruct (transact_infinite_store rt input w Hv Hinf Hkey Hsome)
      as (e1 & w1 & He & [Hs|Hs]); rewrite He in Hrun; injection Hrun as _ <-.
    - by exists 2%nat.
    - by exists 3%nat. }
  destruct (Qclt_le_dec (projected input a (seen w 1)) (Q2Qc 0)) as [Hlow|Hok].
  { rewrite (transact_insufficient rt input w Hv Hkey Hsome) in Hrun.
    - injection Hrun as _ <-. by exists 2%nat.
    - rewrite (projection_Num _ _ _ Ha). cbn [num_ltb zero].
      by apply bool_decide_eq_true_2. }
  destruct (guards input a (seen w 2)) eqn:Hg.
  { rewrite (transact_commits rt input w a Hv Ha Hkey Hsome Hok Hg) in Hrun.
    discriminate. }
  destruct (Transactions (seen w 3) !! TransactInput.idempotentKey input)
    as [item'|] eqn:Hagain.
  { rewrite (transact_rejected_duplicate rt input w a Hv Ha Hkey Hsome Hok item' Hg Hagain)
      in Hrun. discriminate. }
  exists 5%nat.
  destruct (Qclt_le_dec (projected input a (seen w 4)) (Q2Qc 0)) as [Hlow'|Hok'].
  - rewrite (transact_rejected_insufficient rt input w a Hv Ha Hkey Hsome Hok Hg Hagain Hlow')
      in Hrun. by injection Hrun as _ <-.
  - rewrite (transact_rejected_conflict rt input w a Hv Ha Hkey Hsome Hok Hg Hagain Hok')
      in Hrun. by injection Hrun as _ <-.
Qed.

(** Failure is atomic: whenever a call throws one of its own errors, it
    has written nothing. The tables it leaves are the tables it started
    from, moved only by the steps of the other requests. *)
Theorem transact_failure_writes_nothing (rt : runtime) (input : TransactInput.t)
    (w w' : world) (e : Error.t) :
  transact rt input w = (Throw e, w') ->
  own_error input e = true ->
  exists n, store w' = drift w n.
Proof. intros Hrun _. by apply (transact_throws_drift rt input w w' e). Qed.

Lemma transact_failure_writes_nothing_witness :
  exists n,
    store (mkworld (seen (among squeeze (account_u 100)) 4) squeeze 5
             (calls_rejected (request "k" "50" "debit")))
    = drift (among squeeze (account_u 100)) n.
Proof.
  apply (transact_failure_writes_nothing rt1 (request "k" "50" "debit")
           (among squeeze (account_u 100)) _ (new_Error msg_concurrent)).
  - vm_compute. reflexivity.
  - compute_done.
Defined.

Lemma drift_alone (s : db) (n : nat) : drift (alone s) n = s.
Proof. destruct n; [reflexivity|apply seen_alone]. Qed.

(** Run alone, a call that throws one of its own errors leaves both tables
    exactly as they were. *)
Theorem transact_alone_failure_unchanged (rt : runtime) (input : TransactInput.t)
    (s : db) (w' : world) (e : Error.t) :
  transact rt input (alone s) = (Throw e, w') ->
  own_error input e = true ->
  store w' = s.
Proof.
  intros Hrun _. destruct (transact_throws_drift _ _ _ _ _ Hrun) as [n ->].
  apply drift_alone.
Qed.

Lemma transact_alone_failure_unchanged_witness :
  store (mkworld (account_u 20) (fun _ s => s) 2
           [Get TRANSACTIONS_TABLE "k2"; Get USERS_TABLE "u"])
  = account_u 20.
Proof.
  apply (transact_alone_failure_unchanged rt1 (request "k2" "50" "debit") (account_u 20)
           _ (new_Error msg_insufficient)).
  - vm_compute. reflexivity.
  - compute_done.
Defined.

(** A property of the tables that the atomic write of a call on [key] and
    [userId] keeps is kept by the whole call. *)
Lemma transact_keeps_framed (P : db -> Prop) (rt : runtime) (input : TransactInput.t) :
  (forall p u s,
      PutItem.idempotentKey p = TransactInput.idempotentKey input ->
      UpdateExpression.userId u = TransactInput.userId input ->
      P s -> P (snd (transact_write_run p u s))) ->
  keeps P (transact rt input).
Proof.
  intros Hwrite. unfold transact.
  destruct (falsy _ || falsy _ || falsy _ || falsy _); [apply keeps_throw|].
  destruct (isNaN _ || num_leb _ _); [apply keeps_throw|].
  destruct (negb _ && negb _); [apply keeps_throw|].
  apply keeps_bind; [apply keeps_read|]. intros [item|]; [apply keeps_ret|].
  apply keeps_bind; [apply keeps_read|]. intros [item|]; [|apply keeps_throw].
  destruct (num_ltb _ zero); [apply keeps_throw|].
  apply keeps_try_catch.
  - apply keeps_bind.
    + apply keeps_send. intros s Hs. by apply Hwrite.
    + intros _. apply keeps_bind; [apply keeps_read|]. intros r. apply keeps_ret.
  - intros e.
    destruct (bool_decide (Error.name e = "TransactionCanceledException"));
      [|apply keeps_throw].
    apply keeps_bind; [apply keeps_read|]. intros [item'|].
    + apply keeps_bind; [apply keeps_read|]. intros r. apply keeps_ret.
    + apply keeps_bind; [apply keeps_read|]. intros r.
      destruct (num_ltb _ zero); apply keeps_throw.
Qed.

(** What the atomic write leaves of the tables it does not address. *)
Lemma transact_write_run_frame (p : PutItem.t) (u : UpdateExpression.t) (s : db) :
  (forall k item, Transactions s !! k = Some item ->
                  Transactions (snd (transact_write_run p u s)) !! k = Some item)
  /\ (forall k, k <> PutItem.idempotentKey p ->
                Transactions (snd (transact_write_run p u s)) !! k = Transactions s !! k)
  /\ (forall v, v <> UpdateExpression.userId u ->
                Users (snd (transact_write_run p u s)) !! v = Users s !! v).
Proof.
  unfold transact_write_run.
  destruct (marshal (PutItem.amount p)); [|by split_and!].
  destruct (marshal (PutItem.newBalance p)); [|by split_and!].
  destruct (marshal (UpdateExpression.balanceChange u)); [|by split_and!].
  destruct (marshal_opt (UpdateExpression.minBalance u)); [|by split_and!].
  destruct (put_condition _ s && update_condition _ _ s) eqn:Hg; [|by split_and!].
  apply andb_prop in Hg as [Hput _]. unfold put_condition in Hput.
  apply bool_decide_eq_true in Hput. cbn [snd Users Transactions]. split_and!.
  - intros k item Hk. rewrite lookup_insert_ne; [exact Hk|]. congruence.
  - intros k Hk. by rewrite lookup_insert_ne.
  - intros v Hv. by rewrite lookup_insert_ne.
Qed.

(** The ledger is append-only under [transact]: a record that exists, and
    that the other requests leave alone, is still there, unchanged, after
    any call, whatever its key and outcome. *)
Theorem transact_keeps_records (rt : runtime) (input : TransactInput.t) (w : world)
    (k : string) (item : TransactionItem.t) :
  Transactions (store w) !! k = Some item ->
  (forall n s, Transactions s !! k = Some item -> Transactions (others w n s) !! k = Some item) ->
  Transactions (store (snd (transact rt input w))) !! k = Some item.
Proof.
  intros Hk Hothers.
  apply (transact_keeps_framed (fun s => Transactions s !! k = Some item) rt input);
    [|by split].
  intros p u s _ _ Hs. by apply transact_write_run_frame.
Qed.

Lemma transact_keeps_records_witness :
  Transactions
    (store (snd (transact rt2 (request "k1" "999" "debit")
                   (alone (final [ApplyTransaction rt1 (request "k1" "30" "credit")]
                                 (account_u 100))))))
  !! "k1"
  = Some (recorded rt1 (request "k1" "30" "credit") (Q2Qc 30) (Q2Qc 130)).
Proof.
  apply transact_keeps_records.
  - compute_done.
  - intros n s Hs. exact Hs.
Defined.

(** A call touches no account but its own: the item of every other account
    that the other requests leave alone is what it was. *)
Theorem transact_keeps_other_accounts (rt : runtime) (input : TransactInput.t) (w : world)
    (v : string) (x : option UserItem.t) :
  v <> TransactInput.userId input ->
  Users (store w) !! v = x ->
  (forall n s, Users s !! v = x -> Users (others w n s) !! v = x) ->
  Users (store (snd (transact rt input w))) !! v = x.
Proof.
  intros Hv Hx Hothers.
  apply (transact_keeps_framed (fun s => Users s !! v = x) rt input); [|by split].
  intros p u s _ Hu Hs. rewrite <- Hs.
  apply transact_write_run_frame. congruence.
Qed.

Lemma transact_keeps_other_accounts_witness :
  Users (store (snd (transact rt1 (request "k1" "30" "credit") (alone (account_u 100)))))
  !! "v"
  = None.
Proof.
  apply transact_keeps_other_accounts.
  - discriminate.
  - compute_done.
  - intros n s Hs. exact Hs.
Defined.

(** A call writes no record but under its own key. *)
Theorem transact_keeps_other_keys (rt : runtime) (input : TransactInput.t) (w : world)
    (k : string) (x : option TransactionItem.t) :
  k <> TransactInput.idempotentKey input ->
  Transactions (store w) !! k = x ->
  (forall n s, Transactions s !! k = x -> Transactions (others w n s) !! k = x) ->
  Transactions (store (snd (transact rt input w))) !! k = x.
Proof.
  intros Hk Hx Hothers.
  apply (transact_keeps_framed (fun s => Transactions s !! k = x) rt input); [|by split].
  intros p u s Hp _ Hs. rewrite <- Hs.
  apply transact_write_run_frame. congruence.
Qed.

Lemma transact_keeps_other_keys_witness :
  Transactions
    (store (snd (transact rt1 (request "k1" "30" "credit") (alone (account_u 100)))))
  !! "k2"
  = None.
Proof.
  apply transact_keeps_other_keys.
  - discriminate.
  - compute_done.
  - intros n s Hs. exact Hs.
Defined.

(** Among other requests that keep every balance non-negative, a call
    keeps every balance non-negative, whatever its input and outcome. *)
Theorem transact_nonneg_among (rt : runtime) (input : TransactInput.t) (w : world) :
  nonneg (store w) ->
  (forall n s, nonneg s -> nonneg (others w n s)) ->
  nonneg (store (snd (transact rt input w))).
Proof.
  intros Hs Hothers. by apply (transact_keeps_nonneg rt input w).
Qed.

Lemma lands_nonneg (n : nat) (rt : runtime) (input : TransactInput.t) (m : nat) (s : db) :
  nonneg s -> nonneg (lands n rt input m s).
Proof.
  intros Hs. unfold lands. destruct (m =? n)%nat; [|exact Hs].
  apply (perform_nonneg (ApplyTransaction rt input) s I Hs).
Qed.

Lemma transact_nonneg_among_witness :
  nonneg (store (snd (transact rt1 (request "kA" "40" "debit") overtaken))).
Proof.
  apply transact_nonneg_among.
  - apply (perform_nonneg (CreateAccount _ _ "u" (of_Z 100)) empty_db);
      [reflexivity|exact nonneg_empty].
  - intros n s. apply lands_nonneg.
Defined.

(** ** [transact]: the paths through the atomic write *)

(** On safe integers the steps the model idealises are those of the code:
    the balance is read as it is stored, JavaScript's projected balance is
    DynamoDB's sum, which is also the balance read back, and the amount and
    the projected balance can be stored. *)
Theorem sums_agree_on_safe_integers (input : TransactInput.t) (a : Qc) (s : db) :
  parseFloat (TransactInput.amount input) = Num a ->
  exact_on input a s = true ->
  js_read (default (Q2Qc 0) (stored_balance s (TransactInput.userId input)))
  = current_balance s (TransactInput.userId input)
  /\ js_calculatedNewBalance input
       (default (Q2Qc 0) (stored_balance s (TransactInput.userId input)))
     = Num (projected input a s)
  /\ js_actualNewBalance input
       (default (Q2Qc 0) (stored_balance s (TransactInput.userId input)))
     = Some (Num (projected input a s))
  /\ storable (Num a) = true
  /\ storable (Num (projected input a s)) = true.
Proof.
  intros Ha Hex. unfold exact_on in Hex.
  apply andb_prop in Hex as [[Hb Hsa]%andb_prop Hp].
  set (b := default (Q2Qc 0) (stored_balance s (TransactInput.userId input))) in *.
  assert (Hread : js_read b = Num b) by (by apply js_read_safe_integer).
  assert (Hcalc : js_calculatedNewBalance input b = Num (projected input a s)).
  { unfold js_calculatedNewBalance. rewrite Hread, (balanceChange_Num _ _ Ha).
    change (js_or (Some (Num b)) zero) with (js_or (Num <$> Some b) zero).
    rewrite js_or_zero. cbn [default from_option id].
    apply js_plus_safe_integer; [exact Hb|by apply safe_integer_signed|exact Hp]. }
  split_and!.
  - by rewrite current_balance_eq.
  - exact Hcalc.
  - unfold js_actualNewBalance. rewrite Hcalc, (balanceChange_Num _ _ Ha).
    cbn [marshal fmap option_fmap option_map].
    f_equal. change (b + signed input a)%Qc with (projected input a s).
    rewrite (js_read_safe_integer _ Hp). apply js_or_same.
  - by apply safe_integer_storable.
  - by apply safe_integer_storable.
Qed.

Lemma sums_agree_on_safe_integers_witness :
  js_read (default (Q2Qc 0) (stored_balance (account_u 100) "u"))
  = current_balance (account_u 100) "u"
  /\ js_calculatedNewBalance (request "k1" "40" "debit")
       (default (Q2Qc 0) (stored_balance (account_u 100) "u"))
     = Num (projected (request "k1" "40" "debit") (Q2Qc 40) (account_u 100))
  /\ js_actualNewBalance (request "k1" "40" "debit")
       (default (Q2Qc 0) (stored_balance (account_u 100) "u"))
     = Some (Num (projected (request "k1" "40" "debit") (Q2Qc 40) (account_u 100)))
  /\ storable (Num (Q2Qc 40)) = true
  /\ storable (Num (projected (request "k1" "40" "debit") (Q2Qc 40) (account_u 100))) = true.
Proof.
  apply (sums_agree_on_safe_integers (request "k1" "40" "debit") (Q2Qc 40) (account_u 100));
    compute_done.
Defined.

(** A fresh call run alone that passes the optimistic check commits, and
    where the balance, the amount and the projected balance are safe
    integers the three balances it leaves agree: it returns the generated
    identifier and the projected balance with no message, the account
    holds the projected balance, the ledger holds the record under the key
    with that balance, and the call made the four storage calls of a
    commit. *)
Theorem fresh_commit_alone (rt : runtime) (input : TransactInput.t) (s : db) (a : Qc) :
  valid_input input = true ->
  parseFloat (TransactInput.amount input) = Num a ->
  exact_on input a s = true ->
  Transactions s !! TransactInput.idempotentKey input = None ->
  is_Some (Users s !! TransactInput.userId input) ->
  (Q2Qc 0 <= projected input a s)%Qc ->
  fst (transact rt input (alone s))
  = Return (TransactOutput.make true (fresh_transactionId rt) (Num (projected input a s)) None)
  /\ stored_balance (store (snd (transact rt input (alone s)))) (TransactInput.userId input)
     = Some (projected input a s)
  /\ Transactions (store (snd (transact rt input (alone s))))
     !! TransactInput.idempotentKey input
     = Some (recorded rt input a (projected input a s))
  /\ log (snd (transact rt input (alone s))) = calls_committed input.
Proof.
  intros Hv Ha _ Hkey Huser Hp.
  rewrite (transact_alone_commits rt input s a Hv Ha Hkey Huser Hp). cbn [fst snd store log].
  split_and!; [reflexivity|apply committed_balance|apply committed_record|reflexivity].
Qed.

Lemma fresh_commit_alone_witness :
  fst (transact rt1 (request "k1" "40" "debit") (alone (account_u 100)))
  = Return (TransactOutput.make true (fresh_transactionId rt1)
              (Num (projected (request "k1" "40" "debit") (Q2Qc 40) (account_u 100))) None).
Proof.
  apply (fresh_commit_alone rt1 (request "k1" "40" "debit") (account_u 100) (Q2Qc 40));
    compute_done.
Defined.

(** Idempotent replay on safe integers: when a first call succeeds freshly,
    a second sequential call with the same input succeeds as a replay with
    the same transactionId and the same balance, and leaves the tables as
    the first call left them, the account holding its former balance plus
    the change once. *)
Theorem idempotent_replay (rt rt' : runtime) (input : TransactInput.t) (s : db) (a : Qc)
    (o1 : TransactOutput.t) (w1 : world) :
  parseFloat (TransactInput.amount input) = Num a ->
  exact_on input a s = true ->
  transact rt input (alone s) = (Return o1, w1) ->
  replayed o1 = false ->
  exists o2 w2,
    transact rt' input (alone (store w1)) = (Return o2, w2)
    /\ TransactOutput.success o2 = true
    /\ TransactOutput.transactionId o2 = TransactOutput.transactionId o1
    /\ TransactOutput.newBalance o2 = TransactOutput.newBalance o1
    /\ replayed o2 = true
    /\ store w2 = store w1
    /\ stored_balance (store w2) (TransactInput.userId input)
       = Some (default (Q2Qc 0) (stored_balance s (TransactInput.userId input))
               + signed input a)%Qc.
Proof.
  intros Hamount _ Hrun Hfresh. apply replayed_false in Hfresh.
  destruct (transact_alone_fresh_inv _ _ _ _ _ Hrun Hfresh)
    as (a' & Hv & Ha & _ & _ & _ & _ & -> & ->).
  assert (a' = a) as -> by congruence.
  cbn [store]. eexists _, _. split.
  { apply transact_replays; [exact Hv|]. cbn [alone interfere others clock store].
    apply committed_record. }
  cbn [TransactOutput.success TransactOutput.transactionId TransactOutput.newBalance
       recorded TransactionItem.transactionId TransactionItem.newBalance store
       alone interfere others clock].
  split_and!; try reflexivity.
  apply committed_balance.
Qed.

Lemma idempotent_replay_witness :
  exists o2 w2,
    transact rt2 (request "k1" "30" "credit")
      (alone (store (snd (transact rt1 (request "k1" "30" "credit") (alone (account_u 100))))))
    = (Return o2, w2)
    /\ TransactOutput.success o2 = true
    /\ TransactOutput.transactionId o2 = "txn_1700000000000_4fzyo82mv"
    /\ TransactOutput.newBalance o2 = of_Z 130
    /\ replayed o2 = true
    /\ store w2 = store (snd (transact rt1 (request "k1" "30" "credit") (alone (account_u 100))))
    /\ stored_balance (store w2) "u"
       = Some (default (Q2Qc 0) (stored_balance (account_u 100) "u")
               + signed (request "k1" "30" "credit") (Q2Qc 30))%Qc.
Proof.
  apply (idempotent_replay rt1 rt2 (request "k1" "30" "credit") (account_u 100) (Q2Qc 30)
           (TransactOutput.make true "txn_1700000000000_4fzyo82mv" (of_Z 130) None)).
  - compute_done.
  - compute_done.
  - vm_compute. reflexivity.
  - reflexivity.
Defined.







(** No path of [transact] reaches the atomic write twice: in every world
    and for every input a call issues at most one [TransactWriteCommand]. *)
Theorem transact_single_write (rt : runtime) (input : TransactInput.t) (w : world) :
  exists l : list call,
    log (snd (transact rt input w)) = log w ++ l /\ (commits l <= 1)%nat.
Proof. apply transact_writes_at_most_once. Qed.

(** ** Status codes of the handlers *)

Lemma prefix_empty (s : string) : String.prefix "" s = true.
Proof. by destruct s. Qed.

Lemma prefix_app_no_overlap (sub u t : string) :
  no_overlap sub t = true -> String.prefix sub (u +:+ t) = String.prefix sub u.
Proof.
  revert u. induction sub as [|a r IH]; intros u Hno.
  { by rewrite !prefix_empty. }
  cbn [no_overlap] in Hno. apply andb_prop in Hno as [Hhere Hrest].
  destruct u as [|b u'].
  - change ("" +:+ t) with t. apply negb_true_iff in Hhere. rewrite Hhere. reflexivity.
  - change (String b u' +:+ t) with (String b (u' +:+ t)). cbn [String.prefix].
    destruct (ascii_dec a b); [|reflexivity]. by apply IH.
Qed.

Lemma includes_cons (sub : string) (c : ascii) (s : string) :
  includes sub (String c s) = String.prefix sub (String c s) || includes sub s.
Proof. reflexivity. Qed.

(** An occurrence in [u +:+ t] lies in [u] or in [t] when it cannot run
    across the seam. *)
Lemma includes_app (sub u t : string) :
  sub <> "" -> no_overlap sub t = true ->
  includes sub (u +:+ t) = includes sub u || includes sub t.
Proof.
  intros Hne Hno. induction u as [|c u' IH].
  - destruct sub; [done|]. reflexivity.
  - change (String c u' +:+ t) with (String c (u' +:+ t)).
    rewrite !includes_cons, IH, orb_assoc.
    change (String c (u' +:+ t)) with (String c u' +:+ t).
    by rewrite (prefix_app_no_overlap sub (String c u') t Hno).
Qed.

Lemma includes_after_User (sub r : string) :
  (forall x, String.prefix sub ("User " +:+ x) = false
             /\ String.prefix sub ("ser " +:+ x) = false
             /\ String.prefix sub ("er " +:+ x) = false
             /\ String.prefix sub ("r " +:+ x) = false
             /\ String.prefix sub (" " +:+ x) = false) ->
  includes sub ("User " +:+ r) = includes sub r.
Proof.
  intros H. destruct (H r) as (H1 & H2 & H3 & H4 & H5).
  change ("User " +:+ r) with (String "U" ("ser " +:+ r)).
  rewrite includes_cons.
  change (String "U" ("ser " +:+ r)) with ("User " +:+ r). rewrite H1. cbn [orb].
  change ("ser " +:+ r) with (String "s" ("er " +:+ r)).
  rewrite includes_cons.
  change (String "s" ("er " +:+ r)) with ("ser " +:+ r). rewrite H2. cbn [orb].
  change ("er " +:+ r) with (String "e" ("r " +:+ r)).
  rewrite includes_cons.
  change (String "e" ("r " +:+ r)) with ("er " +:+ r). rewrite H3. cbn [orb].
  change ("r " +:+ r) with (String "r" (" " +:+ r)).
  rewrite includes_cons.
  change (String "r" (" " +:+ r)) with ("r " +:+ r). rewrite H4. cbn [orb].
  change (" " +:+ r) with (String " " r).
  rewrite includes_cons.
  change (String " " r) with (" " +:+ r). rewrite H5. reflexivity.
Qed.

Ltac word_outside_User :=
  apply includes_after_User; intros x; split_and!; reflexivity.

(** The message for a missing account contains one of the words that mean
    409 exactly when the identifier of the account does. *)
Lemma conflict_word_user_not_found (userId : string) :
  conflict_word (msg_user_not_found userId) = conflict_word userId.
Proof.
  unfold conflict_word, msg_user_not_found.
  change ("User " +:+ userId +:+ " not found")
    with ("User " +:+ (userId +:+ " not found")).
  replace (includes "Insufficient balance" ("User " +:+ (userId +:+ " not found")))
    with (includes "Insufficient balance" (userId +:+ " not found"))
    by (symmetry; word_outside_User).
  replace (includes "concurrent" ("User " +:+ (userId +:+ " not found")))
    with (includes "concurrent" (userId +:+ " not found"))
    by (symmetry; word_outside_User).
  replace (includes "retry" ("User " +:+ (userId +:+ " not found")))
    with (includes "retry" (userId +:+ " not found"))
    by (symmetry; word_outside_User).
  rewrite !includes_app by (discriminate || reflexivity).
  change (includes "Insufficient balance" " not found") with false.
  change (includes "concurrent" " not found") with false.
  change (includes "retry" " not found") with false.
  by rewrite !orb_false_r.
Qed.

Lemma includes_not_found (userId : string) :
  includes "not found" (msg_user_not_found userId) = true.
Proof.
  unfold msg_user_not_found.
  change ("User " +:+ userId +:+ " not found")
    with ("User " +:+ (userId +:+ " not found")).
  replace (includes "not found" ("User " +:+ (userId +:+ " not found")))
    with (includes "not found" (userId +:+ " not found"))
    by (symmetry; word_outside_User).
  rewrite includes_app by (discriminate || reflexivity).
  change (includes "not found" " not found") with true. apply orb_true_r.
Qed.

Lemma msg_user_not_found_truthy (userId : string) : falsy (msg_user_not_found userId) = false.
Proof. reflexivity. Qed.


(** A call in which idempotentKey, userId, amount or type is empty, or
    [parseFloat] of the amount is [NaN] or not strictly positive, or type
    is neither credit nor debit, fails with InvalidInput and takes no
    storage step: the world is untouched. *)
Theorem invalid_input_rejected (rt : runtime) (input : TransactInput.t) (w : world) :
  TransactInput.idempotentKey input = ""
  \/ TransactInput.userId input = ""
  \/ TransactInput.amount input = ""
  \/ TransactInput.type input = ""
  \/ positive (parseFloat (TransactInput.amount input)) = false
  \/ credit_or_debit (TransactInput.type input) = false ->
  exists e, transact rt input w = (Throw e, w) /\ kind_of e = InvalidInput.
Proof.
  intros Hbad.
  assert (Hv : valid_input input = false).
  { unfold valid_input, falsy.
    destruct Hbad as [H|[H|[H|[H|[H|H]]]]]; rewrite H; cbn;
      rewrite ?andb_false_r; reflexivity. }
  destruct (transact_invalid rt input w Hv) as [H|[H|H]];
    rewrite H; eexists; (split; [reflexivity|reflexivity]).
Qed.

Lemma invalid_input_rejected_witness :
  exists e,
    transact rt1 (request "invalid-2" "1e-400" "credit") (alone (account_u 100))
    = (Throw e, alone (account_u 100))
    /\ kind_of e = InvalidInput.
Proof.
  apply (invalid_input_rejected rt1 (request "invalid-2" "1e-400" "credit")
           (alone (account_u 100))).
  do 4 right. left. compute_done.
Defined.

(** [transactHandler] answers 400 to every input that [transact] does not
    accept (an empty field, an amount that [parseFloat] does not read as a
    strictly positive number, an unknown type), and no storage step is
    taken. *)
Theorem transactHandler_invalid (rt : runtime) (body : TransactInput.t) (w : world) :
  valid_input body = false ->
  exists msg,
    transactHandler rt body w = (TransactReply.make 400 false None (Some msg), w)
    /\ (msg = msg_fields_required \/ msg = msg_amount_positive \/ msg = msg_type_invalid).
Proof.
  intros Hv. unfold transactHandler.
  destruct (falsy _ || falsy _ || falsy _ || falsy _) eqn:Hreq; [by eauto|].
  replace (TransactInput.make (TransactInput.idempotentKey body)
             (TransactInput.userId body) (TransactInput.amount body)
             (TransactInput.type body)) with body by (by destruct body).
  destruct (transact_invalid rt body w Hv) as [H|[H|H]]; rewrite H; eauto 10.
Qed.

Lemma transactHandler_invalid_witness :
  exists msg,
    transactHandler rt1 (request "k" "abc" "credit") (alone (account_u 100))
    = (TransactReply.make 400 false None (Some msg), alone (account_u 100))
    /\ (msg = msg_fields_required \/ msg = msg_amount_positive \/ msg = msg_type_invalid).
Proof.
  apply (transactHandler_invalid rt1 (request "k" "abc" "credit") (alone (account_u 100))).
  reflexivity.
Defined.

(** For a valid request under a key without record on a missing account,
    [transactHandler] answers "User ... not found" with 404, unless the
    identifier of the account contains "Insufficient balance", "concurrent"
    or "retry": then it answers 409. *)
Theorem transactHandler_missing_account (rt : runtime) (body : TransactInput.t) (w : world) :
  valid_input body = true ->
  Transactions (seen w 0) !! TransactInput.idempotentKey body = None ->
  Users (seen w 1) !! TransactInput.userId body = None ->
  fst (transactHandler rt body w)
  = TransactReply.make (if conflict_word (TransactInput.userId body) then 409 else 404)%nat
      false None (Some (msg_user_not_found (TransactInput.userId body)))
  /\ store (snd (transactHandler rt body w)) = seen w 1.
Proof.
  intros Hv Hkey Huser. unfold transactHandler.
  destruct (valid_input_inv _ Hv) as (Hreq & _ & _). rewrite Hreq. clear Hreq.
  replace (TransactInput.make (TransactInput.idempotentKey body)
             (TransactInput.userId body) (TransactInput.amount body)
             (TransactInput.type body)) with body by (by destruct body).
  rewrite (transact_user_not_found rt body w Hv Hkey Huser). cbn [fst snd store].
  split; [|reflexivity].
  unfold message_or. cbn [new_Error Error.message]. rewrite msg_user_not_found_truthy.
  f_equal. unfold statusCode. cbn [new_Error Error.message].
  pose proof (conflict_word_user_not_found (TransactInput.userId body)) as Hw.
  unfold conflict_word in Hw |- *. rewrite Hw.
  destruct (includes "Insufficient balance" (TransactInput.userId body)
            || includes "concurrent" (TransactInput.userId body)
            || includes "retry" (TransactInput.userId body)); [reflexivity|].
  by rewrite includes_not_found.
Qed.

Lemma transactHandler_missing_account_witness :
  fst (transactHandler rt1 (TransactInput.make "k" "retry-later" "10" "credit")
         (alone (account_u 100)))
  = TransactReply.make 409 false None (Some "User retry-later not found").
Proof.
  apply (transactHandler_missing_account rt1
           (TransactInput.make "k" "retry-later" "10" "credit") (alone (account_u 100)));
    compute_done.
Defined.

(** ** [getCurrentBalance] and [createUser] *)

(** [getCurrentBalance] only reads: whatever holds of the tables, and is
    kept by the other requests, holds after the call, for every input and
    outcome. *)
Theorem getCurrentBalance_reads_only (P : db -> Prop) (input : GetBalanceInput.t)
    (w : world) :
  P (store w) ->
  (forall n s, P s -> P (others w n s)) ->
  P (store (snd (getCurrentBalance input w))).
Proof.
  intros Hs Hothers. by apply (getCurrentBalance_keeps P input w).
Qed.

Lemma getCurrentBalance_reads_only_witness :
  store (snd (getCurrentBalance (GetBalanceInput.make "nobody") (alone (account_u 100))))
  = account_u 100.
Proof.
  apply (getCurrentBalance_reads_only (fun s => s = account_u 100)).
  - reflexivity.
  - intros n s Hs. exact Hs.
Defined.

(** Creating an account with a balance that can be stored and reading its
    balance back returns the balance it was created with, whatever the
    tables held before. *)
Theorem createUser_then_getCurrentBalance (createdAt updatedAt userId : string) (b : Qc)
    (s : db) :
  userId <> "" ->
  storable (Num b) = true ->
  fst (getCurrentBalance (GetBalanceInput.make userId)
         (alone (store (snd (createUser createdAt updatedAt userId (Num b) (alone s))))))
  = Return (GetBalanceOutput.make userId (Num b)).
Proof.
  intros Hne _. unfold createUser, put_user, send, falsy. cbn [marshal].
  rewrite bool_decide_eq_false_2 by exact Hne.
  cbn [snd store alone interfere others clock].
  rewrite getCurrentBalance_found; rewrite ?seen_alone; [|exact Hne|].
  - cbn [fst]. rewrite current_balance_eq. unfold stored_balance. cbn [Users].
    by rewrite lookup_insert_eq.
  - cbn [Users]. rewrite lookup_insert_eq. eauto.
Qed.

Lemma createUser_then_getCurrentBalance_witness :
  fst (getCurrentBalance (GetBalanceInput.make "u")
         (alone (store (snd (createUser "2026-02-02T00:00:00.000Z" "2026-02-02T00:00:00.001Z"
                               "u" (Num (Q2Qc (-7 # 2))) (alone (account_u 100)))))))
  = Return (GetBalanceOutput.make "u" (Num (Q2Qc (-7 # 2)))).
Proof.
  apply createUser_then_getCurrentBalance; [discriminate|compute_done].
Defined.

(** ** Sequences of transactions *)

Lemma perform_apply_store (rt : runtime) (input : TransactInput.t) (s : db) :
  snd (perform (ApplyTransaction rt input) s) = store (snd (transact rt input (alone s))).
Proof. cbn [perform]. by destruct (transact rt input (alone s)). Qed.

Lemma isFinite_Num (x : number) : isFinite x = true -> exists a, x = Num a.
Proof. destruct x; try discriminate. eauto. Qed.

Lemma committed_user (rt : runtime) (input : TransactInput.t) (a : Qc) (read s : db) :
  is_Some (Users (committed rt input a read s) !! TransactInput.userId input).
Proof. unfold committed; cbn [Users]. rewrite lookup_insert_eq. eauto. Qed.

Lemma credits_sum (userId : string) (l : list (runtime * string * string)) (s : db) :
  is_Some (Users s !! userId) ->
  (Q2Qc 0 <= default (Q2Qc 0) (stored_balance s userId))%Qc ->
  NoDup (map (fun c => snd (fst c)) l) ->
  Forall (fun c =>
            valid_input (TransactInput.make (snd (fst c)) userId (snd c) "credit") = true
            /\ isFinite (parseFloat (snd c)) = true
            /\ Transactions s !! snd (fst c) = None) l ->
  default (Q2Qc 0) (stored_balance (final (map (credit_of userId) l) s) userId)
  = (default (Q2Qc 0) (stored_balance s userId) + total l)%Qc.
Proof.
  revert s. induction l as [|[[rt key] amount] l IH]; intros s Huser Hb Hnd Hall.
  { cbn [map final fold_left total fold_right]. by rewrite Qcplus_0_r. }
  cbn [map] in Hnd. apply list.NoDup_cons in Hnd as [Hkey Hnd].
  apply list.Forall_cons in Hall as [(Hv & Hfin & Hnone) Hall].
  cbn [fst snd] in Hv, Hfin, Hnone, Hkey.
  destruct (isFinite_Num _ Hfin) as [a Ha].
  set (input := TransactInput.make key userId amount "credit") in *.
  assert (Hpos : (Q2Qc 0 < a)%Qc).
  { apply positive_Num. rewrite <- Ha. apply (valid_input_positive input Hv). }
  assert (Hproj : projected input a s = (default (Q2Qc 0) (stored_balance s userId) + a)%Qc).
  { unfold projected. by rewrite (signed_credit input a eq_refl). }
  assert (Hok : (Q2Qc 0 <= projected input a s)%Qc).
  { rewrite Hproj. apply Qcplus_nonneg_nonneg; [exact Hb|by apply Qclt_le_weak]. }
  cbn [map]. rewrite final_cons.
  change (credit_of userId (rt, key, amount)) with (ApplyTransaction rt input).
  rewrite perform_apply_store.
  rewrite (transact_alone_commits rt input s a Hv Ha Hnone Huser Hok). cbn [snd store].
  pose proof (committed_balance rt input a s s) as Hbal. cbn [TransactInput.userId input] in Hbal.
  rewrite IH.
  - rewrite Hbal. cbn [default from_option id]. rewrite Hproj.
    cbn [total fold_right snd]. unfold amount_value at 1. rewrite Ha.
    by rewrite Qcplus_assoc.
  - apply (committed_user rt input a s s).
  - rewrite Hbal. exact Hok.
  - exact Hnd.
  - apply list.Forall_forall. intros [[rt' key'] amount'] Hin.
    pose proof (proj1 (list.Forall_forall _ _) Hall _ Hin) as (Hv' & Hfin' & Hnone').
    cbn [fst snd] in *. split_and!; [exact Hv'|exact Hfin'|].
    unfold committed. cbn [Transactions TransactInput.idempotentKey input].
    rewrite lookup_insert_ne; [exact Hnone'|].
    intros ->. apply Hkey. apply list_elem_of_In, in_map_iff.
    exists (rt', key', amount'). split; [reflexivity|by apply list_elem_of_In].
Qed.

(** Credits add up: run one after the other on an account whose balance is
    a safe integer and not negative, valid credits of safe integer amounts
    under distinct keys without record, whose sum with the balance is a
    safe integer, bring the balance to the former balance plus the sum of
    the amounts. Every balance on the way lies between the first and the
    last, so each is a safe integer. *)
Theorem credits_add_up (userId : string) (l : list (runtime * string * string)) (s : db) :
  is_Some (Users s !! userId) ->
  (Q2Qc 0 <= default (Q2Qc 0) (stored_balance s userId))%Qc ->
  safe_integer (default (Q2Qc 0) (stored_balance s userId)) = true ->
  safe_integer (default (Q2Qc 0) (stored_balance s userId) + total l) = true ->
  NoDup (map (fun c => snd (fst c)) l) ->
  Forall (fun c =>
            valid_input (TransactInput.make (snd (fst c)) userId (snd c) "credit") = true
            /\ isFinite (parseFloat (snd c)) = true
            /\ safe_integer (amount_value (snd c)) = true
            /\ Transactions s !! snd (fst c) = None) l ->
  default (Q2Qc 0) (stored_balance (final (map (credit_of userId) l) s) userId)
  = (default (Q2Qc 0) (stored_balance s userId) + total l)%Qc.
Proof.
  intros Huser Hb _ _ Hnd Hall. apply credits_sum; try assumption.
  apply list.Forall_forall. intros c Hin.
  pose proof (proj1 (list.Forall_forall _ _) Hall _ Hin) as (Hv & Hfin & _ & Hnone).
  by split_and!.
Qed.

Lemma credits_add_up_witness :
  default (Q2Qc 0)
    (stored_balance
       (final (map (credit_of "u")
                 [(rt1, "multi-1", "50"); (rt2, "multi-2", "20.0"); (rt3, "multi-3", "1e1")])
              (account_u 200)) "u")
  = (default (Q2Qc 0) (stored_balance (account_u 200) "u")
     + total [(rt1, "multi-1", "50"); (rt2, "multi-2", "20.0"); (rt3, "multi-3", "1e1")])%Qc.
Proof.
  apply credits_add_up.
  - compute_done.
  - compute_done.
  - compute_done.
  - compute_done.
  - compute_done.
  - repeat constructor; compute_done.
Defined.

(** A credit followed by a debit of the same amount, under two distinct
    keys without record, on an account whose balance is not negative,
    brings the balance the readers see back to what it was, where the
    balance, the amount and their sum are safe integers. *)
Theorem credit_then_debit_restores (rt rt' : runtime) (c d : TransactInput.t) (s : db)
    (a : Qc) :
  valid_input c = true ->
  valid_input d = true ->
  TransactInput.type c = "credit" ->
  TransactInput.type d = "debit" ->
  TransactInput.userId d = TransactInput.userId c ->
  TransactInput.idempotentKey d <> TransactInput.idempotentKey c ->
  parseFloat (TransactInput.amount c) = Num a ->
  parseFloat (TransactInput.amount d) = Num a ->
  exact_on c a s = true ->
  Transactions s !! TransactInput.idempotentKey c = None ->
  Transactions s !! TransactInput.idempotentKey d = None ->
  is_Some (Users s !! TransactInput.userId c) ->
  (Q2Qc 0 <= default (Q2Qc 0) (stored_balance s (TransactInput.userId c)))%Qc ->
  current_balance (final [ApplyTransaction rt c; ApplyTransaction rt' d] s)
                  (TransactInput.userId c)
  = current_balance s (TransactInput.userId c).
Proof.
  intros Hvc Hvd Htc Htd Hu Hk Hac Had _ Hnc Hnd Huser Hb.
  assert (Hpos : (Q2Qc 0 < a)%Qc).
  { apply positive_Num. rewrite <- Hac. by apply valid_input_positive. }
  assert (Hpc : projected c a s
                = (default (Q2Qc 0) (stored_balance s (TransactInput.userId c)) + a)%Qc).
  { unfold projected. by rewrite (signed_credit c a Htc). }
  assert (Hokc : (Q2Qc 0 <= projected c a s)%Qc).
  { rewrite Hpc. apply Qcplus_nonneg_nonneg; [exact Hb|by apply Qclt_le_weak]. }
  unfold final. cbn [fold_left]. rewrite !perform_apply_store.
  rewrite (transact_alone_commits rt c s a Hvc Hac Hnc Huser Hokc). cbn [snd store].
  set (s1 := committed rt c a s s).
  assert (Hb1 : stored_balance s1 (TransactInput.userId d) = Some (projected c a s)).
  { rewrite Hu. apply committed_balance. }
  assert (Hpd : projected d a s1 = default (Q2Qc 0) (stored_balance s (TransactInput.userId c))).
  { unfold projected at 1. rewrite Hb1, (signed_debit d a Htd), Hpc. cbn [default from_option id].
    ring. }
  assert (Hn1 : Transactions s1 !! TransactInput.idempotentKey d = None).
  { unfold s1, committed. cbn [Transactions].
    rewrite lookup_insert_ne; [exact Hnd|congruence]. }
  assert (Hu1 : is_Some (Users s1 !! TransactInput.userId d)).
  { rewrite Hu. apply committed_user. }
  rewrite (transact_alone_commits rt' d s1 a Hvd Had Hn1 Hu1); [|by rewrite Hpd].
  cbn [snd store]. rewrite !current_balance_eq. f_equal.
  pose proof (committed_balance rt' d a s1 s1) as Hend. rewrite Hu in Hend.
  rewrite Hend, Hpd. reflexivity.
Qed.

Lemma credit_then_debit_restores_witness :
  current_balance
    (final [ApplyTransaction rt1 (request "k1" "12" "credit");
            ApplyTransaction rt2 (request "k2" "12.0" "debit")] (account_u 100)) "u"
  = current_balance (account_u 100) "u".
Proof.
  apply (credit_then_debit_restores rt1 rt2 (request "k1" "12" "credit")
           (request "k2" "12.0" "debit") (account_u 100) (Q2Qc 12));
    compute_done.
Defined.

(** ** [clearTransactionsTable] *)

(** The ledger once the keys of [Items] have been deleted from it. *)
Lemma delete_each_alone (Items : list string) (s : db) (n : nat) (l : list call) :
  delete_each Items (mkworld s (fun _ s => s) n l)
  = (Return (),
     mkworld (mkdb (Users s) (foldr delete (Transactions s) (rev Items)))
             (fun _ s => s) (length Items + n) l).
Proof.
  revert s n. induction Items as [|k rest IH]; intros s n; [by destruct s|].
  cbn [delete_each]. unfold bind, delete_transaction, send_unlogged, interfere.
  cbn [store others clock log]. rewrite IH. cbn [Users Transactions].
  f_equal. f_equal; [|cbn [length]; lia].
  f_equal. cbn [rev]. by rewrite foldr_app.
Qed.

Lemma lookup_deleted (keys : list string) (m : gmap string TransactionItem.t) (k : string) :
  foldr delete m keys !! k = if bool_decide (k ∈ keys) then None else m !! k.
Proof.
  induction keys as [|x keys IH]; [reflexivity|]. cbn [foldr].
  destruct (decide (x = k)) as [->|Hne].
  - rewrite lookup_delete_eq. rewrite bool_decide_eq_true_2; [reflexivity|by left].
  - rewrite lookup_delete_ne by exact Hne. rewrite IH.
    destruct (bool_decide (k ∈ keys)) eqn:Hin.
    + apply bool_decide_eq_true in Hin. rewrite bool_decide_eq_true_2; [reflexivity|by right].
    + apply bool_decide_eq_false in Hin. rewrite bool_decide_eq_false_2; [reflexivity|].
      intros [?|?]%elem_of_cons; congruence.
Qed.

Lemma elem_of_rev (x : string) (l : list string) : x ∈ rev l <-> x ∈ l.
Proof. rewrite !list_elem_of_In. symmetry. apply in_rev. Qed.

Lemma clearTransactionsTable_alone (page : db -> list string) (s : db) :
  clearTransactionsTable page (alone s)
  = (Return (),
     mkworld (mkdb (Users s) (foldr delete (Transactions s) (rev (page s))))
             (fun _ s => s) (length (page s) + 1) []).
Proof.
  unfold clearTransactionsTable, try_catch, bind, scan_transactions, send_unlogged, interfere.
  cbn [alone store others clock log].
  destruct (page s) as [|k rest] eqn:Hpage.
  - cbn. by destruct s.
  - change (0 <? length (k :: rest))%nat with true. cbn iota.
    by rewrite delete_each_alone.
Qed.

(** Run alone, [clearTransactionsTable] returns normally, leaves the
    accounts as they are, and deletes from the ledger exactly the records
    whose keys the scan returned in its single page: a record outside that
    page stays. *)
Theorem clearTransactionsTable_deletes_page (page : db -> list string) (s : db) (k : string) :
  fst (clearTransactionsTable page (alone s)) = Return ()
  /\ Users (store (snd (clearTransactionsTable page (alone s)))) = Users s
  /\ Transactions (store (snd (clearTransactionsTable page (alone s)))) !! k
     = if bool_decide (k ∈ page s) then None else Transactions s !! k.
Proof.
  rewrite clearTransactionsTable_alone. cbn [fst snd store Users Transactions].
  split_and!; [reflexivity..|].
  rewrite lookup_deleted.
  destruct (bool_decide (k ∈ page s)) eqn:Hin.
  - apply bool_decide_eq_true in Hin. rewrite bool_decide_eq_true_2; [reflexivity|].
    by apply elem_of_rev.
  - apply bool_decide_eq_false in Hin. rewrite bool_decide_eq_false_2; [reflexivity|].
    by rewrite elem_of_rev.
Qed.

Lemma whole_table_covers (s : db) (k : string) :
  k ∈ whole_table s <-> is_Some (Transactions s !! k).
Proof.
  unfold whole_table. rewrite list_elem_of_fmap. split.
  - intros ([k' item] & -> & Hin). apply elem_of_map_to_list in Hin. eauto.
  - intros [item Hitem]. exists (k, item). split; [reflexivity|].
    by apply elem_of_map_to_list.
Qed.

Lemma clearTransactionsTable_whole_table (s : db) :
  store (snd (clearTransactionsTable whole_table (alone s))) = mkdb (Users s) ∅.
Proof.
  rewrite clearTransactionsTable_alone. cbn [snd store]. f_equal.
  apply map_eq. intros k. rewrite lookup_deleted, lookup_empty.
  case_bool_decide as Hin; [reflexivity|].
  rewrite elem_of_rev, whole_table_covers in Hin.
  by apply eq_None_not_Some.
Qed.

(** When the scan returns the whole table, [clearTransactionsTable] run
    alone leaves an empty ledger and the accounts as they were. *)
Theorem clearTransactionsTable_empties (s : db) :
  store (snd (clearTransactionsTable whole_table (alone s))) = mkdb (Users s) ∅.
Proof. apply clearTransactionsTable_whole_table. Qed.

(** Clearing the ledger voids idempotency: after a fresh commit and a
    clearing of the whole ledger, the same request under the same key,
    when the balance bears the change a second time, is applied a second
    time. It is answered as a fresh commit, not as a replay, and the
    account holds its first balance plus twice the change. The balance, the
    amount and the balances after one and two changes are safe integers. *)
Theorem clearing_voids_idempotency (rt rt' : runtime) (input : TransactInput.t) (s : db)
    (a : Qc) :
  valid_input input = true ->
  parseFloat (TransactInput.amount input) = Num a ->
  exact_on input a s = true ->
  safe_integer (projected input a s + signed input a) = true ->
  Transactions s !! TransactInput.idempotentKey input = None ->
  is_Some (Users s !! TransactInput.userId input) ->
  (Q2Qc 0 <= projected input a s)%Qc ->
  (Q2Qc 0 <= projected input a s + signed input a)%Qc ->
  let s1 := store (snd (transact rt input (alone s))) in
  let s2 := store (snd (clearTransactionsTable whole_table (alone s1))) in
  fst (transact rt' input (alone s2))
  = Return (TransactOutput.make true (fresh_transactionId rt')
              (Num (projected input a s + signed input a)) None)
  /\ stored_balance (store (snd (transact rt' input (alone s2)))) (TransactInput.userId input)
     = Some (projected input a s + signed input a)%Qc.
Proof.
  intros Hv Ha _ _ Hkey Huser Hok Hok2 s1 s2.
  assert (Hs1 : s1 = committed rt input a s s).
  { unfold s1. by rewrite (transact_alone_commits rt input s a Hv Ha Hkey Huser Hok). }
  assert (Hs2 : s2 = mkdb (Users s1) ∅) by apply clearTransactionsTable_whole_table.
  assert (Hb2 : stored_balance s2 (TransactInput.userId input) = Some (projected input a s)).
  { rewrite Hs2. unfold stored_balance. cbn [Users].
    rewrite Hs1. apply (committed_balance rt input a s s). }
  assert (Hp2 : projected input a s2 = (projected input a s + signed input a)%Qc).
  { unfold projected at 1. by rewrite Hb2. }
  assert (Hk2 : Transactions s2 !! TransactInput.idempotentKey input = None).
  { rewrite Hs2. apply lookup_empty. }
  assert (Hu2 : is_Some (Users s2 !! TransactInput.userId input)).
  { rewrite Hs2, Hs1. apply committed_user. }
  rewrite (transact_alone_commits rt' input s2 a Hv Ha Hk2 Hu2); [|by rewrite Hp2].
  cbn [fst snd store]. rewrite committed_balance, Hp2. by split.
Qed.

Lemma clearing_voids_idempotency_witness :
  fst (transact rt2 (request "k1" "30" "credit")
         (alone (store (snd (clearTransactionsTable whole_table
                               (alone (store (snd (transact rt1 (request "k1" "30" "credit")
                                                     (alone (account_u 100)))))))))))
  = Return (TransactOutput.make true (fresh_transactionId rt2)
              (Num (projected (request "k1" "30" "credit") (Q2Qc 30) (account_u 100)
                    + signed (request "k1" "30" "credit") (Q2Qc 30))%Qc) None).
Proof.
  apply (clearing_voids_idempotency rt1 rt2 (request "k1" "30" "credit") (account_u 100)
           (Q2Qc 30)); compute_done.
Defined.
